(** * GPIO integration of room-assistant: the pin-to-entity bridge

    A shallow embedding of [src/integrations/gpio/gpio.service.ts]
    ([GpioService]) and the properties of its lifecycle hooks:
    which pins are opened, which entities are registered, how edge
    notifications reach the sensor entities, and which handles are
    unexported on shutdown.

    The service is written against three collaborators that live outside
    the file: the [onoff] driver ([Gpio]), the [EntitiesService] and
    [makeId].  Their observable behaviour is an [Env]: a record of
    functions telling, from the history of calls so far, whether a call
    throws.  JavaScript objects are modelled by their identity: a [Gpio]
    object is its index in the list of driver objects ever constructed,
    an entity is its index in the store of the entities service. *)

From Stdlib Require Import ZArith String List Lia.
From stdpp Require Import base option list strings relations.


(** ** Data *)

(** An [Error] object, with the two fields the service reads. *)
Record Error := mkError { message : string; stack : string }.

(** How a call ends: it returns a value or it throws. *)
Inductive Completion (A : Type) : Type :=
| Normal (a : A)
| Throw (e : Error).
Arguments Normal {A} a.
Arguments Throw {A} e.

(** Identity of a [Gpio] object and of a registered entity. *)
Abbreviation handle := nat (only parsing).
Abbreviation ref := nat (only parsing).

(** The arguments of [new Gpio(pin, direction, edge)] the service uses. *)
Inductive Direction := DirIn | DirOut.
Inductive Edge := EdgeNone | EdgeRising | EdgeFalling | EdgeBoth.

(** The closure handed to [gpio.watch] in [createBinarySensor] (lines
    98-105); it captures the entity returned by [entitiesService.add]. *)
Inductive Listener := SensorListener (binarySensor : ref).

(** A driver object: what it was opened with, and its listeners. *)
Record Gpio := mkGpio {
  gpio_pin : Z;
  gpio_direction : Direction;
  gpio_edge : option Edge;
  gpio_listeners : list Listener;
  gpio_exported : bool
}.

(** Modelled from the spec: the classes [BinarySensor] and [GpioSwitch]
    are declared outside [gpio.service.ts].  Section 3: an entity has an
    id, a name and a boolean state, and a switch entity holds its bound
    pin.  [state] is unset ([None]) after construction. *)
Inductive Entity :=
| BinarySensor (id name : string) (state : option bool)
| GpioSwitch (id name : string) (gpio : handle) (state : option bool).

Definition entity_id (e : Entity) : string :=
  match e with BinarySensor i _ _ => i | GpioSwitch i _ _ _ => i end.

Definition entity_state (e : Entity) : option bool :=
  match e with BinarySensor _ _ s => s | GpioSwitch _ _ _ s => s end.

Definition entity_with_state (b : bool) (e : Entity) : Entity :=
  match e with
  | BinarySensor i n _ => BinarySensor i n (Some b)
  | GpioSwitch i n g _ => GpioSwitch i n g (Some b)
  end.

(** Modelled from the spec: [EntityCustomization] is declared outside
    [gpio.service.ts].  Section 6: a customization is
    [{ for: ConfigKind, overrides: map<field, value> }].  The overrides
    object is a list of keys with their values; a key whose value is
    [undefined] holds [None]. *)
Inductive ConfigKind := BinarySensorConfig | SwitchConfig.

Record EntityCustomization := mkCustomization {
  cust_for : ConfigKind;
  cust_overrides : list (string * option string)
}.

(** Modelled from the spec: [GpioConfig] is declared outside
    [gpio.service.ts].  Section 6: two ordered lists,
    [binarySensors: [{name, pin, deviceClass?}]] and
    [switches: [{name, pin, icon?}]].  Device classes and icons are
    strings. *)
Record GpioBinarySensorOptions := mkSensorOptions {
  bs_name : string;
  bs_pin : Z;
  bs_deviceClass : option string
}.

Record GpioSwitchOptions := mkSwitchOptions {
  sw_name : string;
  sw_pin : Z;
  sw_icon : option string
}.

Record GpioConfig := mkConfig {
  binarySensors : list GpioBinarySensorOptions;
  switches : list GpioSwitchOptions
}.

(** Lines written through the [Logger]. *)
Inductive LogLine :=
| LogText (msg : string)
| LogOpeningPinAsInput (pin : Z)
| LogError (msg stk : string).

(** Every call that leaves the service, in the order it happens, with
    its outcome. *)
Inductive Event :=
| EvLog (l : LogLine)
| EvAdd (e : Entity) (c : list EntityCustomization) (r : Completion ref)
| EvNewGpio (pin : Z) (d : Direction) (edge : option Edge) (r : Completion handle)
| EvWatch (h : handle) (r : Completion unit)
| EvUnexport (h : handle) (r : Completion unit)
| EvWriteSync (h : handle) (level : Z) (r : Completion unit)
| EvSetState (r : ref) (b : bool).

(** The collaborators.  Each [_throws] function sees the history of
    calls, so that a failure can depend on anything that happened before
    (a pin already claimed, an id already registered, ...). *)
Record Env := mkEnv {
  makeId : string -> string;
  add_throws : list Event -> Entity -> list EntityCustomization -> option Error;
  new_Gpio_throws : list Event -> Z -> Direction -> option Edge -> option Error;
  watch_throws : list Event -> handle -> option Error;
  unexport_throws : list Event -> handle -> option Error;
  writeSync_throws : list Event -> handle -> Z -> option Error
}.

(** The service's field [gpios], the driver objects, the store of the
    entities service and the history. *)
Record State := mkState {
  gpios : list handle;
  heap : list Gpio;
  entities : list Entity;
  trace : list Event
}.

Definition initial : State := mkState [] [] [] [].

Definition record (ev : Event) (s : State) : State :=
  mkState (gpios s) (heap s) (entities s) (trace s ++ [ev]).

(** ** Calls that may throw *)

Definition M (A : Type) : Type := State -> Completion A * State.

Definition ret {A} (a : A) : M A := fun s => (Normal a, s).

Definition bind {A B} (m : M A) (k : A -> M B) : M B :=
  fun s =>
    match m s with
    | (Normal a, s') => k a s'
    | (Throw e, s') => (Throw e, s')
    end.

Definition lift (f : State -> State) : M unit := fun s => (Normal tt, f s).

Declare Scope js_scope.
Delimit Scope js_scope with js.
Notation "x <- m ;; k" := (bind m (fun x => k))
  (at level 100, m at next level, right associativity) : js_scope.
Notation "m ;; k" := (bind m (fun _ => k))
  (at level 100, right associativity) : js_scope.
Open Scope js_scope.

(** [Array.prototype.forEach]: the callback's result is dropped; an
    exception leaves the loop. *)
Fixpoint forEach {A B} (f : A -> M B) (l : list A) : M unit :=
  match l with
  | [] => ret tt
  | x :: xs => f x ;; forEach f xs
  end.

(** [Boolean(value)] on a number. *)
Definition Boolean (value : Z) : bool := negb (value =? 0)%Z.

Section Service.

Variable E : Env.

(** *** The logger *)

Definition logger_log (l : LogLine) : State -> State := record (EvLog l).

Definition logger_error (msg stk : string) : State -> State :=
  record (EvLog (LogError msg stk)).

(** *** The entities service *)

(** [entitiesService.add(entity, customizations)]: stores the entity and
    returns it, or throws. *)
Definition entitiesService_add (e : Entity) (c : list EntityCustomization) : M ref :=
  fun s =>
    match add_throws E (trace s) e c with
    | Some err => (Throw err, record (EvAdd e c (Throw err)) s)
    | None =>
        let r := length (entities s) in
        (Normal r,
         mkState (gpios s) (heap s) (entities s ++ [e])
                 (trace s ++ [EvAdd e c (Normal r)]))
    end.

(** [entity.state = b] on a registered entity. *)
Definition set_state (r : ref) (b : bool) : State -> State :=
  fun s =>
    mkState (gpios s) (heap s) (alter (entity_with_state b) r (entities s))
            (trace s ++ [EvSetState r b]).

(** *** The driver *)

(** [new Gpio(pin, direction, edge)]: a new driver object, or throws. *)
Definition new_Gpio (pin : Z) (d : Direction) (edge : option Edge) : M handle :=
  fun s =>
    match new_Gpio_throws E (trace s) pin d edge with
    | Some err => (Throw err, record (EvNewGpio pin d edge (Throw err)) s)
    | None =>
        let h := length (heap s) in
        (Normal h,
         mkState (gpios s) (heap s ++ [mkGpio pin d edge [] true]) (entities s)
                 (trace s ++ [EvNewGpio pin d edge (Normal h)]))
    end.

Definition add_listener (l : Listener) (g : Gpio) : Gpio :=
  mkGpio (gpio_pin g) (gpio_direction g) (gpio_edge g)
         (gpio_listeners g ++ [l]) (gpio_exported g).

(** [gpio.watch(callback)]. *)
Definition gpio_watch (h : handle) (l : Listener) : M unit :=
  fun s =>
    match watch_throws E (trace s) h with
    | Some err => (Throw err, record (EvWatch h (Throw err)) s)
    | None =>
        (Normal tt,
         mkState (gpios s) (alter (add_listener l) h (heap s)) (entities s)
                 (trace s ++ [EvWatch h (Normal tt)]))
    end.

Definition unexported (g : Gpio) : Gpio :=
  mkGpio (gpio_pin g) (gpio_direction g) (gpio_edge g) [] false.

(** [gpio.unexport()]: drops the listeners and frees the pin, or throws. *)
Definition gpio_unexport (h : handle) : M unit :=
  fun s =>
    match unexport_throws E (trace s) h with
    | Some err => (Throw err, record (EvUnexport h (Throw err)) s)
    | None =>
        (Normal tt,
         mkState (gpios s) (alter unexported h (heap s)) (entities s)
                 (trace s ++ [EvUnexport h (Normal tt)]))
    end.

(** [gpio.writeSync(level)]. *)
Definition gpio_writeSync (h : handle) (level : Z) : M unit :=
  fun s =>
    match writeSync_throws E (trace s) h level with
    | Some err => (Throw err, record (EvWriteSync h level (Throw err)) s)
    | None => (Normal tt, record (EvWriteSync h level (Normal tt)) s)
    end.

(** *** GpioService *)

(** [this.gpios.push(gpio)]. *)
Definition gpios_push (h : handle) : State -> State :=
  fun s => mkState (gpios s ++ [h]) (heap s) (entities s) (trace s).

(** The id both [createBinarySensor] and [createSwitch] give an entity. *)
Definition gpio_id (name : string) : string := makeId E ("gpio " +:+ name).

Definition createBinarySensor (name : string) (pin : Z)
    (deviceClass : option string) : M ref :=
  let id := gpio_id name in
  let customizations :=
    [ mkCustomization BinarySensorConfig [("deviceClass", deviceClass)] ] in
  binarySensor <- entitiesService_add (BinarySensor id name None) customizations ;;
  lift (logger_log (LogOpeningPinAsInput pin)) ;;
  gpio <- new_Gpio pin DirIn (Some EdgeBoth) ;;
  lift (gpios_push gpio) ;;
  gpio_watch gpio (SensorListener binarySensor) ;;
  ret binarySensor.

Definition createSwitch (name : string) (pin : Z) (icon : option string) : M ref :=
  let id := gpio_id name in
  let customizations := [ mkCustomization SwitchConfig [("icon", icon)] ] in
  gpio <- new_Gpio pin DirOut None ;;
  lift (gpios_push gpio) ;;
  entitiesService_add (GpioSwitch id name gpio None) customizations.

Definition onApplicationBootstrap (config : GpioConfig) : M unit :=
  forEach (fun binarySensor =>
             createBinarySensor (bs_name binarySensor) (bs_pin binarySensor)
                                (bs_deviceClass binarySensor))
          (binarySensors config) ;;
  forEach (fun switchOptions =>
             createSwitch (sw_name switchOptions) (sw_pin switchOptions)
                          (sw_icon switchOptions))
          (switches config).

Definition onApplicationShutdown : M unit :=
  fun s =>
    (lift (logger_log (LogText "Closing opened GPIO pins")) ;;
     forEach gpio_unexport (gpios s)) s.

(** The callback of [createBinarySensor], run on [(err, value)]. *)
Definition run_listener (l : Listener) (err : option Error) (value : Z)
    : State -> State :=
  match l with
  | SensorListener binarySensor =>
      match err with
      | Some e => logger_error (message e) (stack e)
      | None => set_state binarySensor (Boolean value)
      end
  end.

(** The driver delivering one notification on a driver object: every
    listener attached to it is called, in the order of attachment. *)
Definition notify (h : handle) (err : option Error) (value : Z) (s : State) : State :=
  match heap s !! h with
  | Some g => fold_left (fun s' l => run_listener l err value s') (gpio_listeners g) s
  | None => s
  end.

(** Modelled from the spec: the class [GpioSwitch] ([gpio.switch.ts]) that
    [createSwitch] instantiates is missing from the sources.  Section 4.4:
    [setState(entity, desired)] synchronously writes [desired ? 1 : 0] to
    the bound pin; if the write fails the failure is reported and the
    entity's visible state is not updated. *)
Definition setState (r : ref) (desired : bool) : M unit :=
  fun s =>
    match entities s !! r with
    | Some (GpioSwitch _ _ gpio _) =>
        (gpio_writeSync gpio (if desired then 1 else 0)%Z ;;
         lift (set_state r desired)) s
    | _ => (Normal tt, s)
    end.

(** A run of notifications delivered one after the other on one object. *)
Definition notify_all (h : handle) (ns : list (option Error * Z)) (s : State) : State :=
  fold_left (fun s' n => notify h (fst n) (snd n) s') ns s.

End Service.

(** ** Reading a history *)

(** The driver objects a history constructed, oldest first. *)
Definition opened_by (ev : Event) : list handle :=
  match ev with
  | EvNewGpio _ _ _ (Normal h) => [h]
  | _ => []
  end.

Definition opened (tr : list Event) : list handle := flat_map opened_by tr.

(** The objects on which [unexport] was called, whatever the outcome. *)
Definition unexport_call (ev : Event) : list handle :=
  match ev with
  | EvUnexport h _ => [h]
  | _ => []
  end.

Definition unexport_calls (tr : list Event) : list handle :=
  flat_map unexport_call tr.

(** The values assigned to the [state] of entity [r]. *)
Definition state_write (r : ref) (ev : Event) : list bool :=
  match ev with
  | EvSetState r' b => if Nat.eqb r r' then [b] else []
  | _ => []
  end.

Definition state_writes (r : ref) (tr : list Event) : list bool :=
  flat_map (state_write r) tr.

(** The lines logged. *)
Definition log_line (ev : Event) : list LogLine :=
  match ev with
  | EvLog l => [l]
  | _ => []
  end.

Definition logged (tr : list Event) : list LogLine := flat_map log_line tr.

(** The entities handed to [entitiesService.add], whatever the outcome. *)
Definition add_call (ev : Event) : list Entity :=
  match ev with
  | EvAdd e _ _ => [e]
  | _ => []
  end.

Definition add_calls (tr : list Event) : list Entity := flat_map add_call tr.

(** The pins on which [new Gpio] was called, whatever the outcome. *)
Definition new_Gpio_call (ev : Event) : list Z :=
  match ev with
  | EvNewGpio pin _ _ _ => [pin]
  | _ => []
  end.

Definition new_Gpio_calls (tr : list Event) : list Z := flat_map new_Gpio_call tr.

(** The state of a registered entity. *)
Definition state_of (s : State) (r : ref) : option bool :=
  entities s !! r ≫= entity_state.

(** Every handle of the service's list is a driver object, and none is
    listed twice. *)
Definition registry_wf (s : State) : Prop :=
  NoDup (gpios s) ∧ ∀ h, h ∈ gpios s → h < length (heap s).

(** What a piece of the service did between [s] and [s']: it appended
    [evs] to the history, and pushed exactly the driver objects it
    constructed, which are the next free identities. *)
Definition grows (s s' : State) (evs : list Event) : Prop :=
  trace s' = trace s ++ evs ∧
  gpios s' = gpios s ++ opened evs ∧
  opened evs = seq (length (heap s)) (length (opened evs)) ∧
  length (heap s') = length (heap s) + length (opened evs).

(** The events of a shutdown: its log line, and an [unexport] that
    returned. *)
Definition closing : Event := EvLog (LogText "Closing opened GPIO pins").

Definition released (h : handle) : Event := EvUnexport h (Normal tt).

(** ** Declarations *)

(** The two lists of a configuration as one sequence of declarations, in
    the order bootstrap walks them. *)
Definition Declaration : Type := GpioBinarySensorOptions + GpioSwitchOptions.

Definition declarations (config : GpioConfig) : list Declaration :=
  map inl (binarySensors config) ++ map inr (switches config).

Definition declared_name (d : Declaration) : string :=
  match d with
  | inl binarySensor => bs_name binarySensor
  | inr switchOptions => sw_name switchOptions
  end.

(** The body of the loop that processes a declaration. *)
Definition create (E : Env) (d : Declaration) : M ref :=
  match d with
  | inl binarySensor =>
      createBinarySensor E (bs_name binarySensor) (bs_pin binarySensor)
                         (bs_deviceClass binarySensor)
  | inr switchOptions =>
      createSwitch E (sw_name switchOptions) (sw_pin switchOptions)
                   (sw_icon switchOptions)
  end.

Definition entity_name (e : Entity) : string :=
  match e with BinarySensor _ n _ => n | GpioSwitch _ n _ _ => n end.

(** The name and the id under which an entity is handed to the entities
    service, and the pair the service derives from a declaration. *)
Definition registered_as (e : Entity) : string * string :=
  (entity_name e, entity_id e).

Definition declared_as (E : Env) (d : Declaration) : string * string :=
  (declared_name d, gpio_id E (declared_name d)).

(** The entity and the customizations [createBinarySensor] and
    [createSwitch] hand to [entitiesService.add]. *)
Definition sensor_entity (E : Env) (name : string) : Entity :=
  BinarySensor (makeId E ("gpio " +:+ name)) name None.

Definition sensor_customizations (deviceClass : option string)
    : list EntityCustomization :=
  [ mkCustomization BinarySensorConfig [("deviceClass", deviceClass)] ].

Definition switch_entity (E : Env) (name : string) (gpio : handle) : Entity :=
  GpioSwitch (makeId E ("gpio " +:+ name)) name gpio None.

Definition switch_customizations (icon : option string) : list EntityCustomization :=
  [ mkCustomization SwitchConfig [("icon", icon)] ].

(** The driver objects the two methods construct. *)
Definition input_gpio (pin : Z) (ls : list Listener) : Gpio :=
  mkGpio pin DirIn (Some EdgeBoth) ls true.

Definition output_gpio (pin : Z) : Gpio := mkGpio pin DirOut None [] true.

(** An entity with its [state] put aside: what identifies it. *)
Definition entity_unset (e : Entity) : Entity :=
  match e with
  | BinarySensor i n _ => BinarySensor i n None
  | GpioSwitch i n g _ => GpioSwitch i n g None
  end.

(** ** The running phase *)

(** Between bootstrap and shutdown the driver delivers notifications and
    callers set switches. *)
Inductive running_step (E : Env) : State → State → Prop :=
| run_notify h err value s :
    running_step E s (notify h err value s)
| run_setState r desired c s s' :
    setState E r desired s = (c, s') → running_step E s s'.

(** Anything the service and its collaborators do before shutdown. *)
Inductive service_step (E : Env) : State → State → Prop :=
| svc_running s s' :
    running_step E s s' → service_step E s s'
| svc_createBinarySensor name pin deviceClass c s s' :
    createBinarySensor E name pin deviceClass s = (c, s') → service_step E s s'
| svc_createSwitch name pin icon c s s' :
    createSwitch E name pin icon s = (c, s') → service_step E s s'.

(** Driver object [h] carries the callback of sensor entity [r], and
    nothing else. *)
Definition watched (s : State) (h : handle) (r : ref) : Prop :=
  (∃ g, heap s !! h = Some g ∧ gpio_listeners g = [SensorListener r]) ∧
  is_Some (entities s !! r).

(** What every step before shutdown keeps: the driver objects that exist,
    and the identity of the registered entities. *)
Definition stable (s s' : State) : Prop :=
  (∀ h g, heap s !! h = Some g → heap s' !! h = Some g) ∧
  (∀ r e, entities s !! r = Some e →
          ∃ e', entities s' !! r = Some e' ∧ entity_unset e' = entity_unset e).

(** The event a notification [(err, value)] leaves when the callback of
    sensor [r] runs on it. *)
Definition callback_event (r : ref) (n : option Error * Z) : Event :=
  match fst n with
  | Some e => EvLog (LogError (message e) (stack e))
  | None => EvSetState r (Boolean (snd n))
  end.

(** ** Environments used in the examples *)

(** No call ever throws; [makeId] leaves its seed as it is. *)
Definition quiet_env : Env :=
  mkEnv (λ seed, seed) (λ _ _ _, None) (λ _ _ _ _, None)
        (λ _ _, None) (λ _ _, None) (λ _ _ _, None).

Definition EBUSY : Error := mkError "EBUSY: resource busy or locked" "at Gpio".

(** [unexport] throws on the first driver object. *)
Definition unexport_fails_env : Env :=
  mkEnv (λ seed, seed) (λ _ _ _, None) (λ _ _ _ _, None)
        (λ _ _, None)
        (λ _ h, if Nat.eqb h 0 then Some EBUSY else None)
        (λ _ _ _, None).

(** The scenario of the specification: one sensor and one switch. *)
Definition front_door_and_lamp : GpioConfig :=
  mkConfig [mkSensorOptions "front-door" 4 None] [mkSwitchOptions "lamp" 17 None].

(** The scenario after bootstrap, and after a shutdown that follows. *)
Definition scenario_running : State :=
  snd (onApplicationBootstrap quiet_env front_door_and_lamp initial).

Definition scenario_stopped : State :=
  snd (onApplicationShutdown quiet_env scenario_running).

(** The same scenario with the driver whose first [unexport] throws. *)
Definition busy_running : State :=
  snd (onApplicationBootstrap unexport_fails_env front_door_and_lamp initial).

Definition busy_stopped : State :=
  snd (onApplicationShutdown unexport_fails_env busy_running).

(** [new Gpio] throws on pin 17: bootstrap of the scenario opens the
    sensor's pin and fails on the switch. *)
Definition claimed_pin_env : Env :=
  mkEnv (λ seed, seed) (λ _ _ _, None)
        (λ _ pin _ _, if (pin =? 17)%Z then Some EBUSY else None)
        (λ _ _, None) (λ _ _, None) (λ _ _ _, None).

Definition claimed_failed : State :=
  snd (onApplicationBootstrap claimed_pin_env front_door_and_lamp initial).

Definition claimed_stopped : State :=
  snd (onApplicationShutdown claimed_pin_env claimed_failed).

(** The sensor of the scenario alone, and after a rising and a falling
    edge on its pin. *)
Definition door_watched : State :=
  snd (createBinarySensor quiet_env "front-door" 4 None initial).

Definition door_opened_and_closed : State :=
  notify_all 0 [(None, 1%Z); (None, 0%Z)] door_watched.

Definition EIO : Error := mkError "EIO: i/o error, read" "at Gpio.read".

(** The switch of the scenario alone, and switched on. *)
Definition lamp_bound : State :=
  snd (createSwitch quiet_env "lamp" 17 None initial).

Definition lamp_on : State := snd (setState quiet_env 0 true lamp_bound).

(** [entitiesService.add] always throws. *)
Definition EEXISTS : Error := mkError "Entity already exists" "at EntitiesService.add".

Definition add_fails_env : Env :=
  mkEnv (λ seed, seed) (λ _ _ _, Some EEXISTS) (λ _ _ _ _, None)
        (λ _ _, None) (λ _ _, None) (λ _ _ _, None).

Definition lamp_rejected : State :=
  snd (createSwitch add_fails_env "lamp" 17 None initial).

(** Two sensors, and their state after an edge on each pin. *)
Definition door_and_window : GpioConfig :=
  mkConfig [mkSensorOptions "front-door" 4 None;
            mkSensorOptions "window" 5 (Some "window")] [].

Definition two_sensors : State :=
  snd (onApplicationBootstrap quiet_env door_and_window initial).




(** A sensor and a switch declared under one name. *)
Definition porch_twice : GpioConfig :=
  mkConfig [mkSensorOptions "porch" 4 None] [mkSwitchOptions "porch" 17 None].

Definition porch_running : State :=
  snd (onApplicationBootstrap quiet_env porch_twice initial).

(** Two sensors and a switch, with a driver whose [new Gpio] throws on
    pin 17 and whose [unexport] throws on the first driver object:
    bootstrap opens both sensors and fails on the switch. *)
Definition door_window_and_lamp : GpioConfig :=
  mkConfig [mkSensorOptions "front-door" 4 None;
            mkSensorOptions "window" 5 (Some "window")]
           [mkSwitchOptions "lamp" 17 None].

Definition claimed_and_busy_env : Env :=
  mkEnv (λ seed, seed) (λ _ _ _, None)
        (λ _ pin _ _, if (pin =? 17)%Z then Some EBUSY else None)
        (λ _ _, None)
        (λ _ h, if Nat.eqb h 0 then Some EBUSY else None)
        (λ _ _ _, None).

Definition half_started : State :=
  snd (onApplicationBootstrap claimed_and_busy_env door_window_and_lamp initial).

Definition half_stopped : State :=
  snd (onApplicationShutdown claimed_and_busy_env half_started).

(** ** Statements that are checked against the service *)

(** After a bootstrap of [config] that returns, a shutdown, whatever its
    outcome, has called [unexport] on exactly the handles bootstrap
    opened, in that order, as many as there are declarations. *)
Definition shutdown_unexports_all_opened
    (E : Env) (config : GpioConfig) (s : State) : Prop :=
  ∀ s1 c s2,
    onApplicationBootstrap E config s = (Normal tt, s1) →
    onApplicationShutdown E s1 = (c, s2) →
    unexport_calls (drop (length (trace s1)) (trace s2))
      = opened (drop (length (trace s)) (trace s1)) ∧
    length (unexport_calls (drop (length (trace s1)) (trace s2)))
      = length (binarySensors config) + length (switches config).

(** After a bootstrap of [config] that throws, every handle it opened is
    in the list and a shutdown, whatever its outcome, has called
    [unexport] on it. *)
Definition failed_bootstrap_handles_all_tried
    (E : Env) (config : GpioConfig) (s : State) : Prop :=
  ∀ e s1 c s2,
    onApplicationBootstrap E config s = (Throw e, s1) →
    onApplicationShutdown E s1 = (c, s2) →
    ∀ h, h ∈ opened (drop (length (trace s)) (trace s1)) →
         h ∈ gpios s1 ∧
         h ∈ unexport_calls (drop (length (trace s1)) (trace s2)).

(** Shutdown as a best effort: it returns, and has called [unexport] on
    every handle of the list, whatever each call did. *)
Definition shutdown_attempts_all (E : Env) (s : State) : Prop :=
  ∃ s', onApplicationShutdown E s = (Normal tt, s') ∧
        ∀ h, h ∈ gpios s → h ∈ unexport_calls (drop (length (trace s)) (trace s')).

(** ** A declaration processed without exception *)

(** What one declaration leaves behind when nothing throws, given the
    entity [r] that [entitiesService.add] returns and the driver object
    [h] that [new Gpio] constructs: the entity registered, the driver
    object, and the calls in the order the method makes them. *)
Definition decl_entity (E : Env) (h : handle) (d : Declaration) : Entity :=
  match d with
  | inl binarySensor => sensor_entity E (bs_name binarySensor)
  | inr switchOptions => switch_entity E (sw_name switchOptions) h
  end.

Definition decl_gpio (r : ref) (d : Declaration) : Gpio :=
  match d with
  | inl binarySensor => input_gpio (bs_pin binarySensor) [SensorListener r]
  | inr switchOptions => output_gpio (sw_pin switchOptions)
  end.

Definition decl_events (E : Env) (r : ref) (h : handle) (d : Declaration)
    : list Event :=
  match d with
  | inl binarySensor =>
      [EvAdd (sensor_entity E (bs_name binarySensor))
         (sensor_customizations (bs_deviceClass binarySensor)) (Normal r);
       EvLog (LogOpeningPinAsInput (bs_pin binarySensor));
       EvNewGpio (bs_pin binarySensor) DirIn (Some EdgeBoth) (Normal h);
       EvWatch h (Normal tt)]
  | inr switchOptions =>
      [EvNewGpio (sw_pin switchOptions) DirOut None (Normal h);
       EvAdd (switch_entity E (sw_name switchOptions) h)
         (switch_customizations (sw_icon switchOptions)) (Normal r)]
  end.

(** The state a loop over declarations [l] reaches from [s] when nothing
    throws: the k-th declaration gets the k-th new entity and the k-th new
    driver object. *)
Definition after_declarations (E : Env) (l : list Declaration) (s : State) : State :=
  mkState
    (gpios s ++ seq (length (heap s)) (length l))
    (heap s ++ imap (λ k, decl_gpio (length (entities s) + k)) l)
    (entities s ++ imap (λ k, decl_entity E (length (heap s) + k)) l)
    (trace s ++
     concat (imap (λ k, decl_events E (length (entities s) + k)
                                    (length (heap s) + k)) l)).

(** The calls bootstrap makes: registering, logging, opening, watching. *)
Definition is_setup_event (ev : Event) : bool :=
  match ev with
  | EvLog _ | EvAdd _ _ _ | EvNewGpio _ _ _ _ | EvWatch _ _ => true
  | EvUnexport _ _ | EvWriteSync _ _ _ | EvSetState _ _ => false
  end.

(** The values written to driver objects with [writeSync]. *)
Definition writeSync_call (ev : Event) : list (handle * Z) :=
  match ev with
  | EvWriteSync h level _ => [(h, level)]
  | _ => []
  end.

Definition writeSync_calls (tr : list Event) : list (handle * Z) :=
  flat_map writeSync_call tr.

(** From [s] to [s'] entities, driver objects and history were only
    extended, and the history by setup calls alone. *)
Definition only_appends (s s' : State) : Prop :=
  ∃ es hs evs,
    entities s' = entities s ++ es ∧
    heap s' = heap s ++ hs ∧
    trace s' = trace s ++ evs ∧
    Forall (λ ev, is_setup_event ev = true) evs.

(** The levels of the successful notifications of a run, and the errors
    of the others, each in the order of arrival. *)
Definition levels_read (ns : list (option Error * Z)) : list Z :=
  flat_map (λ n, match fst n with None => [snd n] | Some _ => [] end) ns.

Definition read_errors (ns : list (option Error * Z)) : list Error :=
  flat_map (λ n, match fst n with None => [] | Some e => [e] end) ns.

(** A sensor's pin going up, failing to be read twice, and going down. *)
Definition door_with_read_errors : State :=
  notify_all 0 [(None, 1%Z); (Some EIO, 0%Z); (Some EIO, 1%Z); (None, 0%Z)]
             door_watched.

(** ** Lemmas on the monad and on histories *)

Lemma opened_app tr1 tr2 : opened (tr1 ++ tr2) = opened tr1 ++ opened tr2.
Proof. apply flat_map_app. Qed.

Lemma unexport_calls_app tr1 tr2 :
  unexport_calls (tr1 ++ tr2) = unexport_calls tr1 ++ unexport_calls tr2.
Proof. apply flat_map_app. Qed.

Lemma state_writes_app r tr1 tr2 :
  state_writes r (tr1 ++ tr2) = state_writes r tr1 ++ state_writes r tr2.
Proof. apply flat_map_app. Qed.

Lemma logged_app tr1 tr2 : logged (tr1 ++ tr2) = logged tr1 ++ logged tr2.
Proof. apply flat_map_app. Qed.

Lemma add_calls_app tr1 tr2 : add_calls (tr1 ++ tr2) = add_calls tr1 ++ add_calls tr2.
Proof. apply flat_map_app. Qed.

Lemma new_Gpio_calls_app tr1 tr2 :
  new_Gpio_calls (tr1 ++ tr2) = new_Gpio_calls tr1 ++ new_Gpio_calls tr2.
Proof. apply flat_map_app. Qed.

Lemma forEach_app {A B} (f : A -> M B) (l1 l2 : list A) (s : State) :
  forEach f (l1 ++ l2) s = (forEach f l1 ;; forEach f l2) s.
Proof.
  revert s. induction l1 as [|x l1 IH]; intros s; simpl.
  - reflexivity.
  - unfold bind in *. destruct (f x s) as [[b|e] s1]; [apply IH | reflexivity].
Qed.

Lemma grows_refl s : grows s s [].
Proof.
  unfold grows. simpl. rewrite !app_nil_r. repeat split; lia.
Qed.

Lemma grows_trans s1 s2 s3 evs1 evs2 :
  grows s1 s2 evs1 → grows s2 s3 evs2 → grows s1 s3 (evs1 ++ evs2).
Proof.
  intros (Ht1 & Hg1 & Ho1 & Hl1) (Ht2 & Hg2 & Ho2 & Hl2).
  unfold grows. rewrite opened_app, length_app.
  repeat split.
  - rewrite Ht2, Ht1. now rewrite app_assoc.
  - rewrite Hg2, Hg1. now rewrite app_assoc.
  - rewrite seq_app, <- Ho1, <- Hl1, <- Ho2. reflexivity.
  - lia.
Qed.

(** ** What bootstrap does to the list of handles *)

(** Unfolds one method of the service down to the calls it makes, and
    splits on the outcome of each of them. *)
Ltac run_calls :=
  unfold createBinarySensor, createSwitch, bind, lift, ret,
    entitiesService_add, new_Gpio, gpio_watch, gpio_unexport, gpio_writeSync,
    gpios_push, logger_log, logger_error, record;
  simpl;
  repeat match goal with
         | |- context [match ?o with Some _ => _ | None => _ end] =>
             let H := fresh "Hcall" in destruct o eqn:H; simpl
         end.

Ltac close_grows :=
  unfold grows; simpl; rewrite <- ?app_assoc; simpl;
  split; [first [reflexivity | symmetry; apply app_nil_r] |];
  unfold opened; simpl;
  rewrite ?app_nil_r, ?length_alter, ?length_app; simpl;
  repeat split; try reflexivity; try lia.

Section Bootstrap.

Variable E : Env.

Lemma createBinarySensor_grows name pin dc s c s' :
  createBinarySensor E name pin dc s = (c, s') →
  ∃ evs, grows s s' evs ∧ (∀ r, c = Normal r → length (opened evs) = 1).
Proof.
  run_calls; intros Hrun; inversion Hrun; subst; clear Hrun;
    eexists; (split; [close_grows | intros r Hr; try discriminate Hr; reflexivity]).
Qed.

Lemma createSwitch_grows name pin icon s c s' :
  createSwitch E name pin icon s = (c, s') →
  ∃ evs, grows s s' evs ∧ (∀ r, c = Normal r → length (opened evs) = 1).
Proof.
  run_calls; intros Hrun; inversion Hrun; subst; clear Hrun;
    eexists; (split; [close_grows | intros r Hr; try discriminate Hr; reflexivity]).
Qed.

Lemma forEach_grows {A} (f : A → M ref) (l : list A) :
  (∀ x s c s', f x s = (c, s') →
     ∃ evs, grows s s' evs ∧ (∀ r, c = Normal r → length (opened evs) = 1)) →
  ∀ s c s', forEach f l s = (c, s') →
  ∃ evs, grows s s' evs ∧ (c = Normal tt → length (opened evs) = length l).
Proof.
  intros Hf. induction l as [|x l IH]; intros s c s' Hrun; simpl in Hrun.
  - inversion Hrun; subst. exists []. split; [apply grows_refl | reflexivity].
  - unfold bind in Hrun. destruct (f x s) as [[r|e] s1] eqn:Hx.
    + destruct (Hf _ _ _ _ Hx) as (evs1 & G1 & L1).
      destruct (IH _ _ _ Hrun) as (evs2 & G2 & L2).
      exists (evs1 ++ evs2). split; [eapply grows_trans; eassumption |].
      intros Hc. rewrite opened_app, length_app, (L1 r eq_refl), (L2 Hc).
      reflexivity.
    + inversion Hrun; subst.
      destruct (Hf _ _ _ _ Hx) as (evs1 & G1 & _).
      exists evs1. split; [assumption | discriminate].
Qed.

Lemma onApplicationBootstrap_grows config s c s' :
  onApplicationBootstrap E config s = (c, s') →
  ∃ evs, grows s s' evs ∧
         (c = Normal tt →
          length (opened evs) =
            length (binarySensors config) + length (switches config)).
Proof.
  unfold onApplicationBootstrap, bind. intros Hrun.
  destruct (forEach _ (binarySensors config) s) as [[[]|e] s1] eqn:H1.
  - apply forEach_grows in H1 as (evs1 & G1 & L1);
      [| intros; eapply createBinarySensor_grows; eassumption].
    apply forEach_grows in Hrun as (evs2 & G2 & L2);
      [| intros; eapply createSwitch_grows; eassumption].
    exists (evs1 ++ evs2). split; [eapply grows_trans; eassumption |].
    intros Hc. rewrite opened_app, length_app, (L1 eq_refl), (L2 Hc). reflexivity.
  - inversion Hrun; subst.
    apply forEach_grows in H1 as (evs1 & G1 & _);
      [| intros; eapply createBinarySensor_grows; eassumption].
    exists evs1. split; [assumption | discriminate].
Qed.

Lemma grows_registry_wf s s' evs :
  grows s s' evs → registry_wf s → registry_wf s'.
Proof.
  intros (_ & Hg & Ho & Hl) [Hnd Hlt]. unfold registry_wf. rewrite Hg, Hl.
  split.
  - apply NoDup_app. repeat split; [assumption | | rewrite Ho; apply NoDup_seq].
    intros h Hin Hin'. apply Hlt in Hin. rewrite Ho in Hin'.
    apply elem_of_seq in Hin'. lia.
  - intros h [Hin | Hin]%elem_of_app.
    + apply Hlt in Hin. lia.
    + rewrite Ho in Hin. apply elem_of_seq in Hin. lia.
Qed.

Lemma grows_opened_NoDup s s' evs : grows s s' evs → NoDup (opened evs).
Proof. intros (_ & _ & Ho & _). rewrite Ho. apply NoDup_seq. Qed.

(** ** What shutdown does *)

Lemma unexport_calls_released l : unexport_calls (map released l) = l.
Proof. induction l as [|h l IH]; simpl; [reflexivity | now rewrite IH]. Qed.

Lemma logged_released l : logged (map released l) = [].
Proof. induction l as [|h l IH]; simpl; [reflexivity | assumption]. Qed.

(** The loop over the handles: either every [unexport] returns, or the
    loop ends at the first one that throws. *)
Lemma forEach_unexport_run l s c s' :
  forEach (gpio_unexport E) l s = (c, s') →
  gpios s' = gpios s ∧ entities s' = entities s ∧
  match c with
  | Normal _ => trace s' = trace s ++ map released l
  | Throw e =>
      ∃ pre h post, l = pre ++ h :: post ∧
        trace s' = trace s ++ map released pre ++ [EvUnexport h (Throw e)]
  end.
Proof.
  revert s. induction l as [|h l IH]; intros s Hrun; simpl in Hrun.
  - inversion Hrun; subst. simpl. now rewrite app_nil_r.
  - unfold bind in Hrun. destruct (gpio_unexport E h s) as [[[]|e] s1] eqn:Hh.
    + unfold gpio_unexport in Hh.
      destruct (unexport_throws E (trace s) h); inversion Hh; subst; clear Hh.
      destruct (IH _ Hrun) as (Hg & He & Hc). simpl in *.
      repeat split; try assumption.
      destruct c as [?|e].
      * rewrite Hc, <- app_assoc. reflexivity.
      * destruct Hc as (pre & h' & post & -> & Hc).
        exists (h :: pre), h', post. split; [reflexivity |].
        rewrite Hc, <- app_assoc. reflexivity.
    + inversion Hrun; subst; clear Hrun. unfold gpio_unexport in Hh.
      destruct (unexport_throws E (trace s) h) as [e'|]; inversion Hh; subst.
      simpl. repeat split. exists [], h, l. split; reflexivity.
Qed.

Lemma onApplicationShutdown_run s c s' :
  onApplicationShutdown E s = (c, s') →
  gpios s' = gpios s ∧ entities s' = entities s ∧
  match c with
  | Normal _ => trace s' = trace s ++ closing :: map released (gpios s)
  | Throw e =>
      ∃ pre h post, gpios s = pre ++ h :: post ∧
        trace s' = trace s ++ closing :: map released pre ++ [EvUnexport h (Throw e)]
  end.
Proof.
  unfold onApplicationShutdown, bind, lift, logger_log. intros Hrun.
  apply forEach_unexport_run in Hrun as (Hg & He & Hc). simpl in *.
  repeat split; try assumption.
  destruct c as [?|e].
  - rewrite Hc, <- app_assoc. reflexivity.
  - destruct Hc as (pre & h & post & Hl & Hc). exists pre, h, post.
    split; [assumption |]. rewrite Hc, <- app_assoc. reflexivity.
Qed.

(** *** The running phase leaves the list of handles alone *)

Lemma run_listener_gpios l err value s :
  gpios (run_listener l err value s) = gpios s.
Proof. destruct l, err; reflexivity. Qed.

Lemma notify_gpios h err value s : gpios (notify h err value s) = gpios s.
Proof.
  unfold notify. destruct (heap s !! h) as [g|]; [| reflexivity].
  generalize (gpio_listeners g) as ls. intros ls. revert s.
  induction ls as [|l ls IH]; intros s; simpl; [reflexivity |].
  rewrite IH. apply run_listener_gpios.
Qed.

Lemma setState_gpios r desired s c s' :
  setState E r desired s = (c, s') → gpios s' = gpios s.
Proof.
  unfold setState. destruct (entities s !! r) as [[]|];
    run_calls; intros Hrun; inversion Hrun; reflexivity.
Qed.

Lemma running_step_gpios s s' : running_step E s s' → gpios s' = gpios s.
Proof.
  intros [h err value s0 | r desired c s0 s0' Hrun].
  - apply notify_gpios.
  - eapply setState_gpios; eassumption.
Qed.

Lemma running_gpios s s' : rtc (running_step E) s s' → gpios s' = gpios s.
Proof.
  induction 1 as [|s1 s2 s3 Hstep _ IH]; [reflexivity |].
  rewrite IH. now apply running_step_gpios.
Qed.

End Bootstrap.

Lemma count_occ_NoDup (l : list nat) (h : nat) :
  NoDup l → h ∈ l → count_occ Nat.eq_dec l h = 1.
Proof.
  intros Hnd Hin. apply NoDup_ListNoDup in Hnd. apply list_elem_of_In in Hin.
  revert h Hin. now apply NoDup_count_occ'.
Qed.

(** ** The list of handles: bootstrap fills it, shutdown walks it *)

Lemma registry_wf_fresh s : gpios s = [] → registry_wf s.
Proof.
  intros Hg. unfold registry_wf. rewrite Hg. split; [constructor |].
  intros h Hin. inversion Hin.
Qed.

(** C1, as the code has it: after a bootstrap that returns normally on a
    configuration with N binary sensors and M switches, started by a
    service whose list of handles is empty, and after any running phase,
    a shutdown that returns (no [unexport] throws) has called [unexport]
    on exactly the handles bootstrap opened: N+M of them, pairwise
    distinct, each once, in the order they were opened. *)
Theorem shutdown_unexports_each_opened_handle_once
    (E : Env) (config : GpioConfig) (s s1 s1' s2 : State) :
  gpios s = [] →
  onApplicationBootstrap E config s = (Normal tt, s1) →
  rtc (running_step E) s1 s1' →
  onApplicationShutdown E s1' = (Normal tt, s2) →
  ∃ up down,
    trace s1 = trace s ++ up ∧ trace s2 = trace s1' ++ down ∧
    unexport_calls down = opened up ∧
    NoDup (opened up) ∧
    length (opened up) = length (binarySensors config) + length (switches config).
Proof.
  intros Hfresh Hup Hrun Hdown.
  apply onApplicationBootstrap_grows in Hup as (up & G & Hlen).
  apply onApplicationShutdown_run in Hdown as (_ & _ & Hdown).
  exists up, (closing :: map released (gpios s1')).
  pose proof (grows_opened_NoDup _ _ _ G) as Hnd.
  destruct G as (Ht & Hg & _).
  repeat split.
  - exact Ht.
  - exact Hdown.
  - simpl. rewrite unexport_calls_released, (running_gpios _ _ _ Hrun), Hg, Hfresh.
    reflexivity.
  - exact Hnd.
  - now apply Hlen.
Qed.

Lemma scenario_shutdown_unexports_both :
  gpios initial = [] ∧
  onApplicationBootstrap quiet_env front_door_and_lamp initial
    = (Normal tt, scenario_running) ∧
  onApplicationShutdown quiet_env scenario_running = (Normal tt, scenario_stopped) ∧
  ∃ up down,
    trace scenario_running = trace initial ++ up ∧
    trace scenario_stopped = trace scenario_running ++ down ∧
    unexport_calls down = opened up ∧
    NoDup (opened up) ∧
    length (opened up) =
      length (binarySensors front_door_and_lamp) + length (switches front_door_and_lamp).
Proof.
  split; [reflexivity |]. split; [reflexivity |]. split; [reflexivity |].
  apply (shutdown_unexports_each_opened_handle_once
           quiet_env front_door_and_lamp initial
           scenario_running scenario_running scenario_stopped);
    [reflexivity | reflexivity | apply rtc_refl | reflexivity].
Defined.

(** C1 as stated fails: the claim does not ask that shutdown returns.
    With one sensor and one switch bootstrapped and an [unexport] that
    throws on the first handle, shutdown throws after one call: of the
    two handles opened only the first is tried. *)
Lemma shutdown_misses_handles_after_a_throw :
  onApplicationBootstrap unexport_fails_env front_door_and_lamp initial
    = (Normal tt, busy_running) ∧
  opened (trace busy_running) = [0; 1] ∧
  onApplicationShutdown unexport_fails_env busy_running = (Throw EBUSY, busy_stopped) ∧
  unexport_calls (drop (length (trace busy_running)) (trace busy_stopped)) = [0] ∧
  ¬ shutdown_unexports_all_opened unexport_fails_env front_door_and_lamp initial.
Proof.
  split; [reflexivity |]. split; [reflexivity |]. split; [reflexivity |].
  split; [reflexivity |].
  intros Hall.
  destruct (Hall busy_running (Throw EBUSY) busy_stopped eq_refl eq_refl)
    as [Hcalls _].
  discriminate Hcalls.
Qed.

(** C5: a bootstrap that returns normally, started in a state whose list
    of handles is well formed (the empty list of a new service is), leaves
    a list in which every handle it opened occurs exactly once and no
    handle occurs twice: the old list followed by the opened handles. *)
Theorem bootstrap_lists_each_opened_handle_once
    (E : Env) (config : GpioConfig) (s s' : State) :
  registry_wf s →
  onApplicationBootstrap E config s = (Normal tt, s') →
  ∃ evs,
    trace s' = trace s ++ evs ∧
    gpios s' = gpios s ++ opened evs ∧
    NoDup (gpios s') ∧
    ∀ h, h ∈ opened evs → count_occ Nat.eq_dec (gpios s') h = 1.
Proof.
  intros Hwf Hup.
  apply onApplicationBootstrap_grows in Hup as (evs & G & _).
  pose proof (grows_registry_wf _ _ _ G Hwf) as [Hnd _].
  destruct G as (Ht & Hg & _).
  exists evs. repeat split; try assumption.
  intros h Hin. apply count_occ_NoDup; [assumption |].
  rewrite Hg. apply elem_of_app. now right.
Qed.

Lemma scenario_lists_both_handles :
  registry_wf initial ∧
  onApplicationBootstrap quiet_env front_door_and_lamp initial
    = (Normal tt, scenario_running) ∧
  ∃ evs,
    trace scenario_running = trace initial ++ evs ∧
    gpios scenario_running = gpios initial ++ opened evs ∧
    NoDup (gpios scenario_running) ∧
    ∀ h, h ∈ opened evs → count_occ Nat.eq_dec (gpios scenario_running) h = 1.
Proof.
  split; [apply registry_wf_fresh; reflexivity |]. split; [reflexivity |].
  apply (bootstrap_lists_each_opened_handle_once quiet_env front_door_and_lamp);
    [apply registry_wf_fresh; reflexivity | reflexivity].
Defined.

(** C9, as the code has it: when bootstrap throws partway, the list of
    handles holds, after the handles it held before, exactly the handles
    whose [new Gpio] returned, in the order they were opened; a
    [new Gpio] that throws yields no handle and adds nothing.  A later
    shutdown walks that list from its start: it calls [unexport] on each
    of these handles, except on those listed after a handle whose
    [unexport] throws, where shutdown ends with that exception. *)
Theorem failed_bootstrap_keeps_opened_handles_listed
    (E : Env) (config : GpioConfig) (s s1 s1' s2 : State)
    (e : Error) (c : Completion unit) :
  onApplicationBootstrap E config s = (Throw e, s1) →
  rtc (running_step E) s1 s1' →
  onApplicationShutdown E s1' = (c, s2) →
  ∃ up down,
    trace s1 = trace s ++ up ∧ trace s2 = trace s1' ++ down ∧
    gpios s1 = gpios s ++ opened up ∧
    length (heap s1) = length (heap s) + length (opened up) ∧
    (c = Normal tt → unexport_calls down = gpios s1) ∧
    ∀ h, h ∈ opened up →
         h ∈ gpios s1 ∧
         (h ∈ unexport_calls down ∨
          ∃ pre h' post e',
            gpios s1 = pre ++ h' :: post ∧ h ∈ post ∧
            c = Throw e' ∧
            unexport_calls down = pre ++ [h'] ∧
            last down = Some (EvUnexport h' (Throw e'))).
Proof.
  intros Hup Hrun Hdown.
  apply onApplicationBootstrap_grows in Hup as (up & (Ht & Hg & _ & Hl) & _).
  apply onApplicationShutdown_run in Hdown as (_ & _ & Hdown).
  rewrite (running_gpios _ _ _ Hrun) in Hdown.
  assert (∀ h, h ∈ opened up → h ∈ gpios s1) as Hlisted.
  { intros h Hin. rewrite Hg. apply elem_of_app. now right. }
  destruct c as [[]|e2].
  - exists up, (closing :: map released (gpios s1)).
    assert (unexport_calls (closing :: map released (gpios s1)) = gpios s1)
      as Hcalls by (simpl; apply unexport_calls_released).
    split; [exact Ht |]. split; [exact Hdown |]. split; [exact Hg |].
    split; [exact Hl |]. split; [intros _; exact Hcalls |].
    intros h Hin. split; [now apply Hlisted |].
    left. rewrite Hcalls. now apply Hlisted.
  - destruct Hdown as (pre & h2 & post & Hsplit & Hdown).
    exists up, (closing :: map released pre ++ [EvUnexport h2 (Throw e2)]).
    assert (unexport_calls (closing :: map released pre ++ [EvUnexport h2 (Throw e2)])
            = pre ++ [h2]) as Hcalls.
    { simpl. change (flat_map unexport_call) with unexport_calls.
      rewrite unexport_calls_app, unexport_calls_released. reflexivity. }
    split; [exact Ht |]. split; [exact Hdown |]. split; [exact Hg |].
    split; [exact Hl |]. split; [discriminate |].
    intros h Hin. split; [now apply Hlisted |].
    pose proof (Hlisted h Hin) as Hh. rewrite Hsplit in Hh.
    apply elem_of_app in Hh as [Hpre | Hrest].
    + left. rewrite Hcalls. apply elem_of_app. now left.
    + apply elem_of_cons in Hrest as [-> | Hpost].
      * left. rewrite Hcalls. apply elem_of_app. right.
        now apply list_elem_of_singleton.
      * right. exists pre, h2, post, e2.
        split; [exact Hsplit |]. split; [exact Hpost |]. split; [reflexivity |].
        split; [exact Hcalls |].
        change (closing :: map released pre ++ [EvUnexport h2 (Throw e2)])
          with ((closing :: map released pre) ++ [EvUnexport h2 (Throw e2)]).
        apply last_snoc.
Qed.

Lemma half_started_handles_listed_and_walked :
  onApplicationBootstrap claimed_and_busy_env door_window_and_lamp initial
    = (Throw EBUSY, half_started) ∧
  onApplicationShutdown claimed_and_busy_env half_started
    = (Throw EBUSY, half_stopped) ∧
  ∃ up down,
    trace half_started = trace initial ++ up ∧
    trace half_stopped = trace half_started ++ down ∧
    gpios half_started = gpios initial ++ opened up ∧
    length (heap half_started) = length (heap initial) + length (opened up) ∧
    ((Throw EBUSY : Completion unit) = Normal tt →
     unexport_calls down = gpios half_started) ∧
    ∀ h, h ∈ opened up →
         h ∈ gpios half_started ∧
         (h ∈ unexport_calls down ∨
          ∃ pre h' post e',
            gpios half_started = pre ++ h' :: post ∧ h ∈ post ∧
            (Throw EBUSY : Completion unit) = Throw e' ∧
            unexport_calls down = pre ++ [h'] ∧
            last down = Some (EvUnexport h' (Throw e'))).
Proof.
  split; [reflexivity |]. split; [reflexivity |].
  apply (failed_bootstrap_keeps_opened_handles_listed
           claimed_and_busy_env door_window_and_lamp initial
           half_started half_started half_stopped EBUSY (Throw EBUSY));
    [reflexivity | apply rtc_refl | reflexivity].
Defined.

(** C9 as stated fails in its last part: with two sensors opened, a
    switch whose [new Gpio] throws and an [unexport] that throws on the
    first handle, the second handle is opened and listed, and the later
    shutdown never calls [unexport] on it. *)
Lemma half_started_second_handle_is_never_tried :
  onApplicationBootstrap claimed_and_busy_env door_window_and_lamp initial
    = (Throw EBUSY, half_started) ∧
  opened (trace half_started) = [0; 1] ∧
  gpios half_started = [0; 1] ∧
  onApplicationShutdown claimed_and_busy_env half_started
    = (Throw EBUSY, half_stopped) ∧
  unexport_calls (drop (length (trace half_started)) (trace half_stopped)) = [0] ∧
  ¬ failed_bootstrap_handles_all_tried
      claimed_and_busy_env door_window_and_lamp initial.
Proof.
  split; [reflexivity |]. split; [reflexivity |]. split; [reflexivity |].
  split; [reflexivity |]. split; [reflexivity |].
  intros Hall.
  destruct (Hall EBUSY half_started (Throw EBUSY) half_stopped eq_refl eq_refl 1)
    as [_ Htried].
  - apply elem_of_cons. right. apply elem_of_cons. now left.
  - apply elem_of_cons in Htried as [Heq | Hnil]; [discriminate Heq |].
    inversion Hnil.
Qed.

Example claimed_failed_gpios : gpios claimed_failed = [0].
Proof. reflexivity. Qed.

(** C2, as the code has it: when an [unexport] throws during shutdown,
    shutdown ends there.  The exception reaches the caller; the handles
    listed before the failing one were unexported, the failing one was
    tried, and the history holds nothing else: nothing is logged after the
    opening line and, in a list without repetition, no handle listed after
    the failing one is tried. *)
Theorem shutdown_stops_at_first_failing_unexport
    (E : Env) (s s' : State) (c : Completion unit)
    (down : list Event) (h : handle) (e : Error) :
  onApplicationShutdown E s = (c, s') →
  trace s' = trace s ++ down →
  EvUnexport h (Throw e) ∈ down →
  c = Throw e ∧
  ∃ pre post,
    gpios s = pre ++ h :: post ∧
    down = closing :: map released pre ++ [EvUnexport h (Throw e)] ∧
    unexport_calls down = pre ++ [h] ∧
    logged down = [LogText "Closing opened GPIO pins"] ∧
    (NoDup (gpios s) → ∀ h', h' ∈ post → h' ∉ unexport_calls down).
Proof.
  intros Hrun Ht Hin.
  apply onApplicationShutdown_run in Hrun as (_ & _ & Hc).
  destruct c as [[]|e0].
  - rewrite Ht in Hc. apply app_inv_head in Hc. subst down.
    apply elem_of_cons in Hin as [Hin | Hin]; [discriminate Hin |].
    apply list_elem_of_In, in_map_iff in Hin as (h0 & Hin & _). discriminate Hin.
  - destruct Hc as (pre & h0 & post & Hsplit & Hc).
    rewrite Ht in Hc. apply app_inv_head in Hc. subst down.
    assert (h = h0 ∧ e = e0) as [-> ->].
    { apply elem_of_cons in Hin as [Hin | Hin]; [discriminate Hin |].
      apply elem_of_app in Hin as [Hin | Hin].
      - apply list_elem_of_In, in_map_iff in Hin as (h1 & Hin & _). discriminate Hin.
      - apply list_elem_of_singleton in Hin. inversion Hin. split; reflexivity. }
    split; [reflexivity |]. exists pre, post.
    assert (unexport_calls (closing :: map released pre ++ [EvUnexport h0 (Throw e0)])
            = pre ++ [h0]) as Hcalls.
    { simpl. change (flat_map unexport_call) with unexport_calls.
      rewrite unexport_calls_app, unexport_calls_released. reflexivity. }
    repeat split; try assumption.
    + simpl. change (flat_map log_line) with logged.
      rewrite logged_app, logged_released. reflexivity.
    + intros Hnd h' Hpost. rewrite Hcalls. rewrite Hsplit in Hnd.
      apply NoDup_app in Hnd as (_ & Hdisj & Hnd).
      apply NoDup_cons in Hnd as [Hh0 _].
      intros [Hin' | Hin']%elem_of_app.
      * apply (Hdisj _ Hin'). apply elem_of_cons. now right.
      * apply list_elem_of_singleton in Hin'. subst h'. contradiction.
Qed.

Lemma busy_shutdown_stops_at_first_handle :
  onApplicationShutdown unexport_fails_env busy_running = (Throw EBUSY, busy_stopped) ∧
  trace busy_stopped = trace busy_running ++ [closing; EvUnexport 0 (Throw EBUSY)] ∧
  EvUnexport 0 (Throw EBUSY) ∈ [closing; EvUnexport 0 (Throw EBUSY)] ∧
  (Throw EBUSY : Completion unit) = Throw EBUSY ∧
  ∃ pre post,
    gpios busy_running = pre ++ 0 :: post ∧
    [closing; EvUnexport 0 (Throw EBUSY)]
      = closing :: map released pre ++ [EvUnexport 0 (Throw EBUSY)] ∧
    unexport_calls [closing; EvUnexport 0 (Throw EBUSY)] = pre ++ [0] ∧
    logged [closing; EvUnexport 0 (Throw EBUSY)] = [LogText "Closing opened GPIO pins"] ∧
    (NoDup (gpios busy_running) →
     ∀ h', h' ∈ post → h' ∉ unexport_calls [closing; EvUnexport 0 (Throw EBUSY)]).
Proof.
  assert (EvUnexport 0 (Throw EBUSY) ∈ [closing; EvUnexport 0 (Throw EBUSY)]) as Hin.
  { apply elem_of_cons. right. apply elem_of_cons. left. reflexivity. }
  split; [reflexivity |]. split; [reflexivity |]. split; [exact Hin |].
  apply (shutdown_stops_at_first_failing_unexport
           unexport_fails_env busy_running busy_stopped (Throw EBUSY)
           [closing; EvUnexport 0 (Throw EBUSY)] 0 EBUSY);
    [reflexivity | reflexivity | exact Hin].
Defined.

(** C2 as stated fails: with two handles listed and an [unexport] that
    throws on the first, shutdown throws and never tries the second. *)
Lemma shutdown_does_not_attempt_all :
  gpios busy_running = [0; 1] ∧
  onApplicationShutdown unexport_fails_env busy_running = (Throw EBUSY, busy_stopped) ∧
  unexport_calls (drop (length (trace busy_running)) (trace busy_stopped)) = [0] ∧
  logged (drop (length (trace busy_running)) (trace busy_stopped))
    = [LogText "Closing opened GPIO pins"] ∧
  ¬ shutdown_attempts_all unexport_fails_env busy_running.
Proof.
  split; [reflexivity |]. split; [reflexivity |]. split; [reflexivity |].
  split; [reflexivity |].
  intros (s' & Hrun & _). discriminate Hrun.
Qed.

(** ** Bootstrap as one loop over the declarations *)

Lemma forEach_map {A B C} (g : A → B) (f : B → M C) (l : list A) (s : State) :
  forEach f (map g l) s = forEach (λ x, f (g x)) l s.
Proof.
  revert s. induction l as [|x l IH]; intros s; simpl; [reflexivity |].
  unfold bind. destruct (f (g x) s) as [[?|?] ?]; [apply IH | reflexivity].
Qed.

Lemma onApplicationBootstrap_declarations E config s :
  onApplicationBootstrap E config s = forEach (create E) (declarations config) s.
Proof.
  unfold onApplicationBootstrap, declarations. rewrite forEach_app.
  unfold bind. rewrite forEach_map. simpl.
  destruct (forEach _ (binarySensors config) s) as [[[]|e] s1]; [| reflexivity].
  rewrite forEach_map. reflexivity.
Qed.

(** C6: when processing a declaration throws (its [entitiesService.add],
    its [new Gpio] or its [watch]), after the declarations before it, in
    either list, were processed normally, bootstrap throws the same
    exception and ends in the very state in which the declaration threw:
    nothing is registered or opened for a later declaration. *)
Theorem bootstrap_stops_at_first_failing_declaration
    (E : Env) (config : GpioConfig) (pre post : list Declaration)
    (d : Declaration) (s s1 s2 : State) (e : Error) :
  declarations config = pre ++ d :: post →
  forEach (create E) pre s = (Normal tt, s1) →
  create E d s1 = (Throw e, s2) →
  onApplicationBootstrap E config s = (Throw e, s2).
Proof.
  intros Hsplit Hpre Hd.
  rewrite onApplicationBootstrap_declarations, Hsplit, forEach_app.
  unfold bind. rewrite Hpre. simpl. unfold bind. rewrite Hd. reflexivity.
Qed.

Lemma claimed_pin_stops_bootstrap :
  declarations front_door_and_lamp
    = [inl (mkSensorOptions "front-door" 4 None)]
        ++ inr (mkSwitchOptions "lamp" 17 None) :: [] ∧
  onApplicationBootstrap claimed_pin_env front_door_and_lamp initial
    = (Throw EBUSY, claimed_failed).
Proof.
  split; [reflexivity |].
  apply (bootstrap_stops_at_first_failing_declaration
           claimed_pin_env front_door_and_lamp
           [inl (mkSensorOptions "front-door" 4 None)] []
           (inr (mkSwitchOptions "lamp" 17 None)) initial
           (snd (create claimed_pin_env (inl (mkSensorOptions "front-door" 4 None))
                        initial))
           claimed_failed EBUSY);
    reflexivity.
Defined.

(** ** Entity ids *)

Section Ids.

Variable E : Env.

(** What one declaration hands to the entities service: one entity under
    the declared name and the id derived from it; nothing if the
    declaration threw before reaching [add]. *)
Lemma create_registers d s c s' :
  create E d s = (c, s') →
  ∃ evs, trace s' = trace s ++ evs ∧
    match c with
    | Normal _ => map registered_as (add_calls evs) = [declared_as E d]
    | Throw _ => map registered_as (add_calls evs) `prefix_of` [declared_as E d]
    end.
Proof.
  destruct d as [b | w]; unfold create; run_calls;
    intros Hrun; inversion Hrun; subst; clear Hrun; simpl;
    rewrite <- ?app_assoc; simpl;
    (eexists; split; [reflexivity |]); simpl;
    try reflexivity;
    first [ exists []; reflexivity | exists [declared_as E (inr w)]; reflexivity ].
Qed.

Lemma forEach_create_registers l s c s' :
  forEach (create E) l s = (c, s') →
  ∃ evs, trace s' = trace s ++ evs ∧
    match c with
    | Normal _ => map registered_as (add_calls evs) = map (declared_as E) l
    | Throw _ => map registered_as (add_calls evs) `prefix_of` map (declared_as E) l
    end.
Proof.
  revert s. induction l as [|d l IH]; intros s Hrun; simpl in Hrun.
  - inversion Hrun; subst. exists []. split; [now rewrite app_nil_r | reflexivity].
  - unfold bind in Hrun. destruct (create E d s) as [[r|e] s1] eqn:Hd.
    + apply create_registers in Hd as (evs1 & Ht1 & H1).
      apply IH in Hrun as (evs2 & Ht2 & H2).
      exists (evs1 ++ evs2). split; [rewrite Ht2, Ht1; now rewrite app_assoc |].
      rewrite add_calls_app, map_app, H1. simpl.
      destruct c as [?|?]; [now rewrite H2 |].
      destruct H2 as [k Hk]. exists k. simpl. now rewrite Hk.
    + inversion Hrun; subst; clear Hrun.
      apply create_registers in Hd as (evs1 & Ht1 & [k Hk]).
      exists evs1. split; [assumption |].
      exists (k ++ map (declared_as E) l). simpl.
      change (declared_as E d :: map (declared_as E) l)
        with ([declared_as E d] ++ map (declared_as E) l).
      rewrite Hk, <- app_assoc. reflexivity.
Qed.

Lemma gpio_id_inj :
  (∀ a b, makeId E a = makeId E b → a = b) →
  ∀ n1 n2, gpio_id E n1 = gpio_id E n2 → n1 = n2.
Proof.
  intros Hinj n1 n2 Hid. unfold gpio_id in Hid. apply Hinj in Hid.
  cbv [String.append] in Hid. congruence.
Qed.

End Ids.

(** C7: if [makeId] is injective, then in one bootstrap run the entities
    handed to the entities service carry, in order, the names of the
    declarations and the ids derived from them (all of the declarations
    when the run returns normally, an initial part when it throws), and
    two of them with different names have different ids. *)
Theorem different_names_get_different_ids
    (E : Env) (config : GpioConfig) (s s' : State) (c : Completion unit)
    (evs : list Event) :
  (∀ a b, makeId E a = makeId E b → a = b) →
  onApplicationBootstrap E config s = (c, s') →
  trace s' = trace s ++ evs →
  map registered_as (add_calls evs)
    `prefix_of` map (declared_as E) (declarations config) ∧
  (c = Normal tt →
   map registered_as (add_calls evs) = map (declared_as E) (declarations config)) ∧
  ∀ e1 e2, e1 ∈ add_calls evs → e2 ∈ add_calls evs →
           entity_name e1 ≠ entity_name e2 → entity_id e1 ≠ entity_id e2.
Proof.
  intros Hinj Hrun Ht.
  rewrite onApplicationBootstrap_declarations in Hrun.
  apply forEach_create_registers in Hrun as (evs0 & Ht0 & Hreg).
  rewrite Ht in Ht0. apply app_inv_head in Ht0. subst evs0.
  assert (map registered_as (add_calls evs)
            `prefix_of` map (declared_as E) (declarations config)) as Hpre.
  { destruct c; [rewrite Hreg; reflexivity | assumption]. }
  split; [exact Hpre |]. split.
  - intros ->. exact Hreg.
  - assert (∀ e0, e0 ∈ add_calls evs → entity_id e0 = gpio_id E (entity_name e0))
      as Hid.
    { intros e0 Hin. destruct Hpre as [k Hk].
      assert (registered_as e0 ∈ map (declared_as E) (declarations config)) as Hin'.
      { rewrite Hk. apply elem_of_app. left.
        apply list_elem_of_In, in_map, list_elem_of_In, Hin. }
      apply list_elem_of_In, in_map_iff in Hin' as (d & Hd & _).
      unfold declared_as, registered_as in Hd. inversion Hd. reflexivity. }
    intros e1 e2 H1 H2 Hne Heq.
    rewrite (Hid _ H1), (Hid _ H2) in Heq.
    apply Hne. eapply gpio_id_inj; eassumption.
Qed.

Lemma scenario_ids_differ :
  (∀ a b, makeId quiet_env a = makeId quiet_env b → a = b) ∧
  onApplicationBootstrap quiet_env front_door_and_lamp initial
    = (Normal tt, scenario_running) ∧
  map registered_as (add_calls (trace scenario_running))
    = [("front-door", "gpio front-door"); ("lamp", "gpio lamp")] ∧
  ∀ e1 e2, e1 ∈ add_calls (trace scenario_running) →
           e2 ∈ add_calls (trace scenario_running) →
           entity_name e1 ≠ entity_name e2 → entity_id e1 ≠ entity_id e2.
Proof.
  assert (∀ a b, makeId quiet_env a = makeId quiet_env b → a = b) as Hinj.
  { intros a b Hab. exact Hab. }
  split; [exact Hinj |]. split; [reflexivity |]. split; [reflexivity |].
  apply (different_names_get_different_ids
           quiet_env front_door_and_lamp initial scenario_running (Normal tt)
           (trace scenario_running) Hinj);
    reflexivity.
Defined.

(** ** One declaration, call by call *)

Lemma alter_snoc {A} (f : A → A) (l : list A) (x : A) :
  alter f (length l) (l ++ [x]) = l ++ [f x].
Proof.
  replace (length l) with (length l + 0) by lia.
  rewrite alter_app_r. reflexivity.
Qed.

Section Calls.

Variable E : Env.

(** The four ways [createBinarySensor] can go. *)
Lemma createBinarySensor_cases name pin dc s c s' :
  createBinarySensor E name pin dc s = (c, s') →
  let r := length (entities s) in
  let h := length (heap s) in
  let added := EvAdd (sensor_entity E name) (sensor_customizations dc) (Normal r) in
  let line := EvLog (LogOpeningPinAsInput pin) in
  (∃ e, c = Throw e ∧
        s' = mkState (gpios s) (heap s) (entities s)
               (trace s ++ [EvAdd (sensor_entity E name) (sensor_customizations dc)
                              (Throw e)])) ∨
  (∃ e, c = Throw e ∧
        s' = mkState (gpios s) (heap s) (entities s ++ [sensor_entity E name])
               (trace s ++ [added; line;
                            EvNewGpio pin DirIn (Some EdgeBoth) (Throw e)])) ∨
  (∃ e, c = Throw e ∧
        s' = mkState (gpios s ++ [h]) (heap s ++ [input_gpio pin []])
               (entities s ++ [sensor_entity E name])
               (trace s ++ [added; line;
                            EvNewGpio pin DirIn (Some EdgeBoth) (Normal h);
                            EvWatch h (Throw e)])) ∨
  (c = Normal r ∧
   s' = mkState (gpios s ++ [h]) (heap s ++ [input_gpio pin [SensorListener r]])
          (entities s ++ [sensor_entity E name])
          (trace s ++ [added; line;
                       EvNewGpio pin DirIn (Some EdgeBoth) (Normal h);
                       EvWatch h (Normal tt)])).
Proof.
  run_calls; intros Hrun; inversion Hrun; subst; clear Hrun;
    rewrite <- ?app_assoc, ?alter_snoc; simpl.
  - left. eauto.
  - right. left. eauto.
  - right. right. left. eauto.
  - right. right. right. eauto.
Qed.

(** The three ways [createSwitch] can go. *)
Lemma createSwitch_cases name pin icon s c s' :
  createSwitch E name pin icon s = (c, s') →
  let r := length (entities s) in
  let h := length (heap s) in
  let opened_ev := EvNewGpio pin DirOut None (Normal h) in
  (∃ e, c = Throw e ∧
        s' = mkState (gpios s) (heap s) (entities s)
               (trace s ++ [EvNewGpio pin DirOut None (Throw e)])) ∨
  (∃ e, c = Throw e ∧
        s' = mkState (gpios s ++ [h]) (heap s ++ [output_gpio pin]) (entities s)
               (trace s ++ [opened_ev;
                            EvAdd (switch_entity E name h) (switch_customizations icon)
                              (Throw e)])) ∨
  (c = Normal r ∧
   s' = mkState (gpios s ++ [h]) (heap s ++ [output_gpio pin])
          (entities s ++ [switch_entity E name h])
          (trace s ++ [opened_ev;
                       EvAdd (switch_entity E name h) (switch_customizations icon)
                         (Normal r)])).
Proof.
  run_calls; intros Hrun; inversion Hrun; subst; clear Hrun;
    rewrite <- ?app_assoc; simpl.
  - left. eauto.
  - right. left. eauto.
  - right. right. eauto.
Qed.

End Calls.

(** ** Watchers *)

Lemma entity_unset_with_state b e : entity_unset (entity_with_state b e) = entity_unset e.
Proof. destruct e; reflexivity. Qed.

Lemma entity_state_with_state b e : entity_state (entity_with_state b e) = Some b.
Proof. destruct e; reflexivity. Qed.

Lemma stable_refl s : stable s s.
Proof. split; eauto. Qed.

Lemma stable_trans s1 s2 s3 : stable s1 s2 → stable s2 s3 → stable s1 s3.
Proof.
  intros [Hh1 He1] [Hh2 He2]. split; [eauto |].
  intros r e Hr. apply He1 in Hr as (e' & Hr & Hu).
  apply He2 in Hr as (e'' & Hr & Hu'). exists e''. split; [assumption | congruence].
Qed.

Lemma stable_record ev s : stable s (record ev s).
Proof. split; simpl; eauto. Qed.

Lemma stable_set_state r b s : stable s (set_state r b s).
Proof.
  split; [eauto |]. intros r' e Hr. unfold set_state. simpl.
  rewrite list_lookup_alter. case_decide as Heq.
  - subst r'. rewrite Hr. simpl. eexists. split; [reflexivity |].
    apply entity_unset_with_state.
  - eauto.
Qed.

Lemma stable_run_listener l err value s : stable s (run_listener l err value s).
Proof.
  destruct l as [r], err as [e|]; simpl.
  - apply stable_record.
  - apply stable_set_state.
Qed.

Lemma stable_notify h err value s : stable s (notify h err value s).
Proof.
  unfold notify. destruct (heap s !! h) as [g|]; [| apply stable_refl].
  generalize (gpio_listeners g). intros ls. revert s.
  induction ls as [|l ls IH]; intros s; simpl; [apply stable_refl |].
  eapply stable_trans; [apply stable_run_listener | apply IH].
Qed.

(** Appending driver objects or entities disturbs none of the old ones. *)
Ltac appended_only :=
  split; simpl;
  [ intros ? ? ?; first [assumption | now apply lookup_app_l_Some]
  | intros ? e0 ?; exists e0; split;
    [first [assumption | now apply lookup_app_l_Some] | reflexivity] ].

Section Watchers.

Variable E : Env.

Lemma gpio_writeSync_run h level s c s' :
  gpio_writeSync E h level s = (c, s') → s' = record (EvWriteSync h level c) s.
Proof.
  unfold gpio_writeSync.
  destruct (writeSync_throws E (trace s) h level); intros Hrun;
    inversion Hrun; reflexivity.
Qed.

Lemma stable_setState r desired s c s' :
  setState E r desired s = (c, s') → stable s s'.
Proof.
  unfold setState.
  destruct (entities s !! r) as [[i n st | i n g st]|];
    try (intros Hrun; inversion Hrun; apply stable_refl).
  unfold bind, lift.
  destruct (gpio_writeSync E g _ s) as [[[]|e] s1] eqn:Hw;
    apply gpio_writeSync_run in Hw; subst s1;
    intros Hrun; inversion Hrun; subst; clear Hrun.
  - eapply stable_trans; [apply stable_record | apply stable_set_state].
  - apply stable_record.
Qed.

Lemma stable_createBinarySensor name pin dc s c s' :
  createBinarySensor E name pin dc s = (c, s') → stable s s'.
Proof.
  intros Hrun. apply createBinarySensor_cases in Hrun.
  destruct Hrun as [(e & _ & ->) | [(e & _ & ->) | [(e & _ & ->) | [_ ->]]]].
  all: appended_only.
Qed.

Lemma stable_createSwitch name pin icon s c s' :
  createSwitch E name pin icon s = (c, s') → stable s s'.
Proof.
  intros Hrun. apply createSwitch_cases in Hrun.
  destruct Hrun as [(e & _ & ->) | [(e & _ & ->) | [_ ->]]].
  all: appended_only.
Qed.

Lemma service_step_stable s s' : service_step E s s' → stable s s'.
Proof.
  intros [s0 s0' [h err value s1 | r desired c s1 s1' Hrun]
         | name pin dc c s0 s0' Hrun | name pin icon c s0 s0' Hrun].
  - apply stable_notify.
  - eapply stable_setState; eassumption.
  - eapply stable_createBinarySensor; eassumption.
  - eapply stable_createSwitch; eassumption.
Qed.

Lemma service_steps_stable s s' : rtc (service_step E) s s' → stable s s'.
Proof.
  induction 1 as [|s1 s2 s3 Hstep _ IH]; [apply stable_refl |].
  eapply stable_trans; [apply service_step_stable |]; eassumption.
Qed.

End Watchers.

Lemma watched_stable s s' h r : stable s s' → watched s h r → watched s' h r.
Proof.
  intros [Hh He] [(g & Hg & Hl) [e Hr]]. split.
  - exists g. split; [now apply Hh | assumption].
  - apply He in Hr as (e' & Hr & _). now exists e'.
Qed.

(** On a watched object a notification runs the sensor's callback, once. *)
Lemma notify_watched s h r err value :
  watched s h r → notify h err value s = run_listener (SensorListener r) err value s.
Proof.
  intros [(g & Hg & Hl) _]. unfold notify. rewrite Hg, Hl. reflexivity.
Qed.

Lemma state_of_set_state s r b :
  is_Some (entities s !! r) → state_of (set_state r b s) r = Some b.
Proof.
  intros [e Hr]. unfold state_of.
  change (entities (set_state r b s)) with (alter (entity_with_state b) r (entities s)).
  rewrite list_lookup_alter_eq, Hr. simpl. apply entity_state_with_state.
Qed.

Lemma notify_all_watched s h r ns :
  watched s h r →
  trace (notify_all h ns s) = trace s ++ map (callback_event r) ns ∧
  heap (notify_all h ns s) = heap s ∧
  gpios (notify_all h ns s) = gpios s ∧
  watched (notify_all h ns s) h r.
Proof.
  revert s. induction ns as [|[err value] ns IH]; intros s Hw; simpl.
  - rewrite app_nil_r. split; [| split; [| split; [| exact Hw]]]; reflexivity.
  - assert (watched (notify h err value s) h r) as Hw'.
    { eapply watched_stable; [apply stable_notify | exact Hw]. }
    destruct (IH _ Hw') as (Ht & Hh & Hg & Hw'').
    split; [| split; [| split; [| exact Hw'']]].
    all: rewrite ?Ht, ?Hh, ?Hg, (notify_watched _ _ _ _ _ Hw);
      destruct err as [e|]; simpl; rewrite <- ?app_assoc; reflexivity.
Qed.

Lemma notify_all_state s h r values :
  watched s h r →
  state_of (notify_all h (map (λ v, (None, v)) values) s) r =
    match last values with
    | Some v => Some (Boolean v)
    | None => state_of s r
    end.
Proof.
  revert s. induction values as [|v vs IH]; intros s Hw; [reflexivity |].
  assert (watched (notify h None v s) h r) as Hw'.
  { eapply watched_stable; [apply stable_notify | exact Hw]. }
  change (notify_all h (map (λ v0, (None, v0)) (v :: vs)) s)
    with (notify_all h (map (λ v0, (None, v0)) vs) (notify h None v s)).
  rewrite (IH _ Hw'). destruct vs as [|v' vs]; simpl.
  - rewrite (notify_watched _ _ _ _ _ Hw). simpl.
    apply state_of_set_state, Hw.
  - destruct (last (v' :: vs)) eqn:Hlast; [reflexivity |].
    apply last_None in Hlast. discriminate Hlast.
Qed.

Lemma state_writes_set r bs :
  state_writes r (map (EvSetState r) bs) = bs.
Proof.
  induction bs as [|b bs IH]; simpl; [reflexivity |].
  rewrite Nat.eqb_refl. simpl. f_equal. exact IH.
Qed.

Lemma drop_app_length {A} (l k : list A) : drop (length l) (l ++ k) = k.
Proof. induction l as [|x l IH]; simpl; [now destruct k | exact IH]. Qed.

Section Sensors.

Variable E : Env.

(** A [createBinarySensor] that returns leaves its pin watched. *)
Lemma createBinarySensor_returns name pin dc s r s1 :
  createBinarySensor E name pin dc s = (Normal r, s1) →
  r = length (entities s) ∧
  s1 = mkState (gpios s ++ [length (heap s)])
         (heap s ++ [input_gpio pin [SensorListener r]])
         (entities s ++ [sensor_entity E name])
         (trace s ++ [EvAdd (sensor_entity E name) (sensor_customizations dc) (Normal r);
                      EvLog (LogOpeningPinAsInput pin);
                      EvNewGpio pin DirIn (Some EdgeBoth) (Normal (length (heap s)));
                      EvWatch (length (heap s)) (Normal tt)]) ∧
  watched s1 (length (heap s)) r.
Proof.
  intros Hrun. apply createBinarySensor_cases in Hrun.
  destruct Hrun as [(e & Hc & _) | [(e & Hc & _) | [(e & Hc & _) | [Hc ->]]]];
    try discriminate Hc.
  inversion Hc; subst r. split; [reflexivity |]. split; [reflexivity |].
  split; simpl.
  - eexists. split; [apply list_lookup_middle; reflexivity | reflexivity].
  - eexists. apply list_lookup_middle. reflexivity.
Qed.

End Sensors.

(** C3: a [createBinarySensor] that returns has handed to the entities
    service a [BinarySensor] whose id is [makeId] of "gpio " followed by
    the name, with one customization for [BinarySensorConfig] whose
    override [deviceClass] is the declared device class; has then opened
    the declared pin as an input watching both edges; and from then on,
    whatever the service does before shutdown, a run of successful
    notifications on that pin writes to the entity's state exactly the
    values [level != 0], one per notification, in the same order. *)
Theorem sensor_state_follows_notifications
    (E : Env) (name : string) (pin : Z) (deviceClass : option string)
    (s s1 s2 : State) (r : ref) (values : list Z) :
  createBinarySensor E name pin deviceClass s = (Normal r, s1) →
  rtc (service_step E) s1 s2 →
  let h := length (heap s) in
  let id := makeId E ("gpio " +:+ name) in
  let s3 := notify_all h (map (λ v, (None, v)) values) s2 in
  trace s1 = trace s ++
    [EvAdd (BinarySensor id name None)
       [mkCustomization BinarySensorConfig [("deviceClass", deviceClass)]] (Normal r);
     EvLog (LogOpeningPinAsInput pin);
     EvNewGpio pin DirIn (Some EdgeBoth) (Normal h);
     EvWatch h (Normal tt)] ∧
  entities s1 !! r = Some (BinarySensor id name None) ∧
  heap s2 !! h = Some (mkGpio pin DirIn (Some EdgeBoth) [SensorListener r] true) ∧
  trace s3 = trace s2 ++ map (λ v, EvSetState r (negb (v =? 0)%Z)) values ∧
  state_writes r (drop (length (trace s2)) (trace s3))
    = map (λ v, negb (v =? 0)%Z) values ∧
  state_of s3 r = match last values with
                  | Some v => Some (negb (v =? 0)%Z)
                  | None => state_of s2 r
                  end.
Proof.
  intros Hrun Hsteps h id s3.
  apply createBinarySensor_returns in Hrun as (Hr & Hs1 & Hw).
  apply service_steps_stable in Hsteps.
  pose proof (watched_stable _ _ _ _ Hsteps Hw) as Hw2.
  destruct (notify_all_watched s2 h r (map (λ v, (None, v)) values) Hw2)
    as (Ht & _ & _ & _).
  assert (trace s3 = trace s2 ++ map (λ v, EvSetState r (negb (v =? 0)%Z)) values)
    as Ht3.
  { unfold s3. rewrite Ht, map_map. reflexivity. }
  split; [rewrite Hs1; reflexivity |].
  split; [rewrite Hs1, Hr; simpl; apply list_lookup_middle; reflexivity |].
  split.
  { destruct Hsteps as [Hheap _]. apply Hheap. rewrite Hs1. simpl.
    apply list_lookup_middle. reflexivity. }
  split; [exact Ht3 |]. split.
  - rewrite Ht3, drop_app_length.
    rewrite <- (map_map (λ v, negb (v =? 0)%Z) (EvSetState r)).
    apply state_writes_set.
  - apply (notify_all_state s2 h r values Hw2).
Qed.

Lemma door_state_follows_edges :
  createBinarySensor quiet_env "front-door" 4 None initial = (Normal 0, door_watched) ∧
  state_writes 0 (drop (length (trace door_watched)) (trace door_opened_and_closed))
    = [true; false] ∧
  state_of door_opened_and_closed 0 = Some false.
Proof.
  split; [reflexivity |].
  destruct (sensor_state_follows_notifications
              quiet_env "front-door" 4 None initial door_watched door_watched 0
              [1%Z; 0%Z] eq_refl (rtc_refl _ _))
    as (_ & _ & _ & _ & Hwrites & Hstate).
  split; [exact Hwrites | exact Hstate].
Defined.

(** C4: on the pin of a sensor that [createBinarySensor] set up, whatever
    the service did since, a notification that carries an error logs the
    error's message and stack and does nothing else: entities, driver
    objects and the list of handles are unchanged, so the callback stays
    attached; the next successful notification sets the sensor's state. *)
Theorem read_error_is_logged_and_skipped
    (E : Env) (name : string) (pin : Z) (deviceClass : option string)
    (s s1 s2 : State) (r : ref) (e : Error) (value value' : Z) :
  createBinarySensor E name pin deviceClass s = (Normal r, s1) →
  rtc (service_step E) s1 s2 →
  let h := length (heap s) in
  let s3 := notify h (Some e) value s2 in
  let s4 := notify h None value' s3 in
  trace s3 = trace s2 ++ [EvLog (LogError (message e) (stack e))] ∧
  entities s3 = entities s2 ∧
  state_of s3 r = state_of s2 r ∧
  heap s3 = heap s2 ∧
  gpios s3 = gpios s2 ∧
  watched s3 h r ∧
  trace s4 = trace s3 ++ [EvSetState r (Boolean value')] ∧
  state_of s4 r = Some (Boolean value').
Proof.
  intros Hrun Hsteps h s3 s4.
  apply createBinarySensor_returns in Hrun as (_ & _ & Hw).
  apply service_steps_stable in Hsteps.
  pose proof (watched_stable _ _ _ _ Hsteps Hw) as Hw2.
  assert (s3 = logger_error (message e) (stack e) s2) as Hs3.
  { unfold s3. rewrite (notify_watched _ _ _ _ _ Hw2). reflexivity. }
  assert (watched s3 h r) as Hw3.
  { rewrite Hs3. exact Hw2. }
  assert (s4 = set_state r (Boolean value') s3) as Hs4.
  { unfold s4. rewrite (notify_watched _ _ _ _ _ Hw3). reflexivity. }
  rewrite Hs4.
  split; [rewrite Hs3; reflexivity |]. split; [rewrite Hs3; reflexivity |].
  split; [rewrite Hs3; reflexivity |]. split; [rewrite Hs3; reflexivity |].
  split; [rewrite Hs3; reflexivity |]. split; [exact Hw3 |].
  split; [reflexivity |].
  apply state_of_set_state, Hw3.
Qed.

Lemma door_survives_read_error :
  createBinarySensor quiet_env "front-door" 4 None initial = (Normal 0, door_watched) ∧
  state_of (notify 0 (Some EIO) 0%Z door_opened_and_closed) 0 = Some false ∧
  state_of (notify 0 None 1%Z (notify 0 (Some EIO) 0%Z door_opened_and_closed)) 0
    = Some true.
Proof.
  split; [reflexivity |].
  assert (rtc (service_step quiet_env) door_watched door_opened_and_closed) as Hsteps.
  { eapply rtc_l; [apply svc_running, (run_notify _ 0 None 1%Z) |].
    eapply rtc_l; [apply svc_running, (run_notify _ 0 None 0%Z) |].
    apply rtc_refl. }
  destruct (read_error_is_logged_and_skipped
              quiet_env "front-door" 4 None initial door_watched
              door_opened_and_closed 0 EIO 0%Z 1%Z eq_refl Hsteps)
    as (_ & _ & Hsame & _ & _ & _ & _ & Hnext).
  split; [exact (eq_trans Hsame eq_refl) | exact Hnext].
Defined.

(** ** Switches *)

Section Switches.

Variable E : Env.

Lemma createSwitch_returns name pin icon s r s1 :
  createSwitch E name pin icon s = (Normal r, s1) →
  r = length (entities s) ∧
  s1 = mkState (gpios s ++ [length (heap s)]) (heap s ++ [output_gpio pin])
         (entities s ++ [switch_entity E name (length (heap s))])
         (trace s ++ [EvNewGpio pin DirOut None (Normal (length (heap s)));
                      EvAdd (switch_entity E name (length (heap s)))
                        (switch_customizations icon) (Normal r)]).
Proof.
  intros Hrun. apply createSwitch_cases in Hrun.
  destruct Hrun as [(e & Hc & _) | [(e & Hc & _) | [Hc ->]]]; try discriminate Hc.
  inversion Hc; subst r. split; reflexivity.
Qed.

(** What [setState] does on an entity that is a switch bound to [h]. *)
Lemma setState_switch r desired s id name h st c s' :
  entities s !! r = Some (GpioSwitch id name h st) →
  setState E r desired s = (c, s') →
  let level := (if desired then 1 else 0)%Z in
  match c with
  | Normal _ =>
      s' = set_state r desired (record (EvWriteSync h level (Normal tt)) s)
  | Throw e => s' = record (EvWriteSync h level (Throw e)) s
  end.
Proof.
  intros Hr. unfold setState. rewrite Hr. unfold bind, lift.
  destruct (gpio_writeSync E h _ s) as [[[]|e] s1] eqn:Hw;
    apply gpio_writeSync_run in Hw; subst s1;
    intros Hrun; inversion Hrun; subst; reflexivity.
Qed.

End Switches.

(** C8: the entity a returning [createSwitch] registers is a [GpioSwitch]
    bound to the driver object opened on the declared pin as an output,
    and stays so whatever the service does before shutdown.  On it,
    [setState], as section 4.4 of the specification describes it, makes
    with a desired value one [writeSync] of the level 1
    for true and 0 for false on that object.  When the write returns, the
    entity's state is the desired value; when it throws, [setState] throws
    the same exception and the entities are as they were. *)
Theorem switch_setState_writes_bound_pin
    (E : Env) (name : string) (pin : Z) (icon : option string)
    (s s1 s2 s3 : State) (r : ref) (desired : bool) (c : Completion unit) :
  createSwitch E name pin icon s = (Normal r, s1) →
  rtc (service_step E) s1 s2 →
  setState E r desired s2 = (c, s3) →
  let h := length (heap s) in
  let level := (if desired then 1 else 0)%Z in
  heap s2 !! h = Some (mkGpio pin DirOut None [] true) ∧
  (∃ st, entities s2 !! r
         = Some (GpioSwitch (makeId E ("gpio " +:+ name)) name h st)) ∧
  match c with
  | Normal _ =>
      trace s3 = trace s2 ++ [EvWriteSync h level (Normal tt); EvSetState r desired] ∧
      state_of s3 r = Some desired
  | Throw e =>
      trace s3 = trace s2 ++ [EvWriteSync h level (Throw e)] ∧
      entities s3 = entities s2 ∧
      state_of s3 r = state_of s2 r
  end.
Proof.
  intros Hrun Hsteps Hset h level.
  apply createSwitch_returns in Hrun as (Hr & Hs1).
  apply service_steps_stable in Hsteps as [Hheap Hent].
  assert (heap s2 !! h = Some (output_gpio pin)) as Hh.
  { apply Hheap. rewrite Hs1. simpl. apply list_lookup_middle. reflexivity. }
  assert (∃ st, entities s2 !! r
                = Some (GpioSwitch (makeId E ("gpio " +:+ name)) name h st))
    as [st Hst].
  { destruct (Hent r (switch_entity E name h)) as (e' & He' & Hu).
    - rewrite Hs1, Hr. simpl. apply list_lookup_middle. reflexivity.
    - destruct e' as [i n st | i n g st]; simpl in Hu; inversion Hu; subst.
      exists st. exact He'. }
  split; [exact Hh |]. split; [exists st; exact Hst |].
  pose proof (setState_switch E _ _ _ _ _ _ _ _ _ Hst Hset) as Hs3.
  destruct c as [[]|e]; simpl in Hs3; subst s3.
  - split.
    + unfold set_state, record. simpl. rewrite <- app_assoc. reflexivity.
    + apply state_of_set_state. simpl. rewrite Hst. eauto.
  - repeat split.
Qed.

Lemma lamp_switches_on :
  createSwitch quiet_env "lamp" 17 None initial = (Normal 0, lamp_bound) ∧
  setState quiet_env 0 true lamp_bound = (Normal tt, lamp_on) ∧
  trace lamp_on = trace lamp_bound ++ [EvWriteSync 0 1 (Normal tt); EvSetState 0 true] ∧
  state_of lamp_on 0 = Some true.
Proof.
  split; [reflexivity |]. split; [reflexivity |].
  destruct (switch_setState_writes_bound_pin
              quiet_env "lamp" 17 None initial lamp_bound lamp_bound lamp_on
              0 true (Normal tt) eq_refl (rtc_refl _ _) eq_refl)
    as (_ & _ & Htrace & Hstate).
  split; [exact Htrace | exact Hstate].
Defined.

(** ** Order of the calls within one declaration *)

(** Splits a membership in an explicit list of events into its cases. *)
Ltac pick_event H :=
  repeat (apply elem_of_cons in H as [H | H]; [try discriminate H |]);
  try (apply elem_of_nil in H; destruct H).

(** Splits a position in an explicit list of events into its cases. *)
Ltac pick_position i H :=
  do 5 (try (destruct i as [|i]; simpl in H; [try discriminate H |]));
  try discriminate H.

(** C10: the calls of one declaration come in an order that depends on
    its kind.  For a sensor, [new Gpio] is only called after
    [entitiesService.add] returned: when [add] throws no pin is opened and
    nothing changes; when [new Gpio] throws the sensor entity is
    registered, and there is no driver object, handle or watcher for it.
    For a switch, [entitiesService.add] is only called after [new Gpio]
    returned and its handle was pushed: when [add] throws the driver
    object exists and its handle is in the list that shutdown walks. *)
Theorem order_of_calls_within_a_declaration
    (E : Env) (d : Declaration) (s s' : State) (c : Completion ref)
    (evs : list Event) :
  create E d s = (c, s') →
  trace s' = trace s ++ evs →
  match d with
  | inl binarySensor =>
      (∀ i pin dir edge res, evs !! i = Some (EvNewGpio pin dir edge res) →
         ∃ j ent cust r, j < i ∧ evs !! j = Some (EvAdd ent cust (Normal r)) ∧
                         entities s' !! r = Some ent) ∧
      (∀ ent cust e, EvAdd ent cust (Throw e) ∈ evs →
         c = Throw e ∧ new_Gpio_calls evs = [] ∧
         heap s' = heap s ∧ gpios s' = gpios s ∧ entities s' = entities s) ∧
      (∀ pin dir edge e, EvNewGpio pin dir edge (Throw e) ∈ evs →
         c = Throw e ∧
         evs = [EvAdd (sensor_entity E (bs_name binarySensor))
                  (sensor_customizations (bs_deviceClass binarySensor))
                  (Normal (length (entities s)));
                EvLog (LogOpeningPinAsInput (bs_pin binarySensor));
                EvNewGpio (bs_pin binarySensor) DirIn (Some EdgeBoth) (Throw e)] ∧
         entities s' = entities s ++ [sensor_entity E (bs_name binarySensor)] ∧
         heap s' = heap s ∧ gpios s' = gpios s)
  | inr switchOptions =>
      (∀ i ent cust res, evs !! i = Some (EvAdd ent cust res) →
         ∃ j pin dir edge h, j < i ∧
           evs !! j = Some (EvNewGpio pin dir edge (Normal h)) ∧ h ∈ gpios s') ∧
      (∀ ent cust e, EvAdd ent cust (Throw e) ∈ evs →
         c = Throw e ∧
         evs = [EvNewGpio (sw_pin switchOptions) DirOut None (Normal (length (heap s)));
                EvAdd (switch_entity E (sw_name switchOptions) (length (heap s)))
                  (switch_customizations (sw_icon switchOptions)) (Throw e)] ∧
         heap s' = heap s ++ [mkGpio (sw_pin switchOptions) DirOut None [] true] ∧
         gpios s' = gpios s ++ [length (heap s)] ∧
         entities s' = entities s)
  end.
Proof.
  intros Hrun Ht. destruct d as [b | w]; simpl in Hrun.
  - apply createBinarySensor_cases in Hrun.
    destruct Hrun as [(e & -> & ->) | [(e & -> & ->) | [(e & -> & ->) | [-> ->]]]];
      simpl in Ht; apply app_inv_head in Ht; subst evs;
      (split; [| split]);
      first
        [ solve [ intros i pin dir edge res Hi; pick_position i Hi;
                  (exists 0; do 3 eexists);
                  (split; [lia | split; [reflexivity |]]);
                  simpl; apply list_lookup_middle; reflexivity ]
        | solve [ intros ent cust e' Hin; pick_event Hin;
                  inversion Hin; subst; repeat split; reflexivity ]
        | solve [ intros pin dir edge e' Hin; pick_event Hin;
                  inversion Hin; subst; repeat split; reflexivity ] ].
  - apply createSwitch_cases in Hrun.
    destruct Hrun as [(e & -> & ->) | [(e & -> & ->) | [-> ->]]];
      simpl in Ht; apply app_inv_head in Ht; subst evs;
      split;
      first
        [ solve [ intros i ent cust res Hi; pick_position i Hi;
                  (exists 0; do 4 eexists);
                  (split; [lia | split; [reflexivity |]]);
                  simpl; apply elem_of_app; right; apply list_elem_of_singleton;
                  reflexivity ]
        | solve [ intros ent cust e' Hin; pick_event Hin;
                  inversion Hin; subst; repeat split; reflexivity ] ].
Qed.

Lemma rejected_lamp_keeps_its_pin_listed :
  create add_fails_env (inr (mkSwitchOptions "lamp" 17 None)) initial
    = (Throw EEXISTS, lamp_rejected) ∧
  heap lamp_rejected = [mkGpio 17 DirOut None [] true] ∧
  gpios lamp_rejected = [0] ∧
  entities lamp_rejected = [].
Proof.
  split; [reflexivity |].
  destruct (order_of_calls_within_a_declaration
              add_fails_env (inr (mkSwitchOptions "lamp" 17 None))
              initial lamp_rejected (Throw EEXISTS) (trace lamp_rejected)
              eq_refl eq_refl)
    as [_ Hadd].
  destruct (Hadd (switch_entity add_fails_env "lamp" 0)
                 (switch_customizations None) EEXISTS)
    as (_ & _ & Hheap & Hgpios & Hents).
  - apply elem_of_cons. right. apply elem_of_cons. left. reflexivity.
  - split; [exact Hheap |]. split; [exact Hgpios | exact Hents].
Defined.

(** ** A returning bootstrap in closed form *)

Section ClosedForm.

Variable E : Env.

Lemma create_returns d s r s1 :
  create E d s = (Normal r, s1) →
  r = length (entities s) ∧
  s1 = mkState (gpios s ++ [length (heap s)])
         (heap s ++ [decl_gpio r d])
         (entities s ++ [decl_entity E (length (heap s)) d])
         (trace s ++ decl_events E r (length (heap s)) d).
Proof.
  destruct d as [b | w]; simpl; intros Hrun.
  - apply createBinarySensor_returns in Hrun as (Hr & Hs1 & _). now split.
  - apply createSwitch_returns in Hrun as (Hr & Hs1). now split.
Qed.

Lemma forEach_create_returns l s s' :
  forEach (create E) l s = (Normal tt, s') → s' = after_declarations E l s.
Proof.
  revert s. induction l as [|d l IH]; intros s Hrun; simpl in Hrun.
  - inversion Hrun; subst. unfold after_declarations. destruct s' as [g h e t].
    simpl. now rewrite !app_nil_r.
  - unfold bind in Hrun. destruct (create E d s) as [[r|e] s1] eqn:Hd;
      [| discriminate Hrun].
    apply create_returns in Hd as (Hr & Hs1). apply IH in Hrun.
    rewrite Hrun, Hs1, Hr. unfold after_declarations. simpl.
    rewrite !length_app. simpl. rewrite <- !app_assoc. simpl.
    rewrite !Nat.add_0_r, Nat.add_1_r. f_equal.
    + do 2 f_equal. apply imap_ext. intros k x _. simpl. f_equal. lia.
    + do 2 f_equal. apply imap_ext. intros k x _. simpl. f_equal. lia.
    + do 2 f_equal. f_equal. apply imap_ext. intros k x _. simpl. f_equal; lia.
Qed.

End ClosedForm.

(** X1: a bootstrap that returns, from any state, ends in the state
    [after_declarations] computes: it appends one entity and one driver
    object per declaration, sensors first and each list in its order,
    pushes the new handles in that order, and its history is the calls of
    each declaration one after the other. *)
Theorem returning_bootstrap_closed_form
    (E : Env) (config : GpioConfig) (s s' : State) :
  onApplicationBootstrap E config s = (Normal tt, s') →
  s' = after_declarations E (declarations config) s.
Proof.
  intros Hrun. rewrite onApplicationBootstrap_declarations in Hrun.
  now apply forEach_create_returns.
Qed.

Lemma scenario_closed_form :
  onApplicationBootstrap quiet_env front_door_and_lamp initial
    = (Normal tt, scenario_running) ∧
  scenario_running
    = after_declarations quiet_env (declarations front_door_and_lamp) initial.
Proof.
  split; [reflexivity |].
  apply (returning_bootstrap_closed_form quiet_env front_door_and_lamp initial).
  reflexivity.
Defined.

(** X2: after a bootstrap that returns, the k-th declaration (sensors
    first) owns the k-th new entity, the k-th new driver object and the
    k-th new entry of the list of handles: a sensor's driver object is an
    input on its pin watching both edges whose only listener is the
    callback of its own entity, and a switch's entity is bound to the
    output opened on its own pin. *)
Theorem kth_declaration_owns_kth_entity_and_handle
    (E : Env) (config : GpioConfig) (s s' : State) (k : nat) (d : Declaration) :
  onApplicationBootstrap E config s = (Normal tt, s') →
  declarations config !! k = Some d →
  entities s' !! (length (entities s) + k)
    = Some (decl_entity E (length (heap s) + k) d) ∧
  heap s' !! (length (heap s) + k)
    = Some (decl_gpio (length (entities s) + k) d) ∧
  gpios s' !! (length (gpios s) + k) = Some (length (heap s) + k).
Proof.
  intros Hrun Hk. rewrite onApplicationBootstrap_declarations in Hrun.
  apply forEach_create_returns in Hrun. subst s'.
  unfold after_declarations. simpl.
  assert (k < length (declarations config)) as Hlt
    by (eapply lookup_lt_Some; eassumption).
  repeat split.
  - rewrite lookup_app_r by lia.
    replace (length (entities s) + k - length (entities s)) with k by lia.
    rewrite list_lookup_imap, Hk. reflexivity.
  - rewrite lookup_app_r by lia.
    replace (length (heap s) + k - length (heap s)) with k by lia.
    rewrite list_lookup_imap, Hk. reflexivity.
  - rewrite lookup_app_r by lia.
    replace (length (gpios s) + k - length (gpios s)) with k by lia.
    now apply lookup_seq_lt.
Qed.

Lemma scenario_lamp_owns_second_handle :
  onApplicationBootstrap quiet_env front_door_and_lamp initial
    = (Normal tt, scenario_running) ∧
  declarations front_door_and_lamp !! 1 = Some (inr (mkSwitchOptions "lamp" 17 None)) ∧
  entities scenario_running !! 1 = Some (GpioSwitch "gpio lamp" "lamp" 1 None) ∧
  heap scenario_running !! 1 = Some (mkGpio 17 DirOut None [] true) ∧
  gpios scenario_running !! 1 = Some 1.
Proof.
  split; [reflexivity |]. split; [reflexivity |].
  apply (kth_declaration_owns_kth_entity_and_handle
           quiet_env front_door_and_lamp initial scenario_running 1
           (inr (mkSwitchOptions "lamp" 17 None)));
    reflexivity.
Defined.

(** ** A throwing bootstrap has a first failing declaration *)

Lemma forEach_throws {A B} (f : A → M B) (l : list A) (s s' : State) (e : Error) :
  forEach f l s = (Throw e, s') →
  ∃ pre x post s1,
    l = pre ++ x :: post ∧
    forEach f pre s = (Normal tt, s1) ∧
    f x s1 = (Throw e, s').
Proof.
  revert s. induction l as [|x l IH]; intros s Hrun; simpl in Hrun.
  - discriminate Hrun.
  - unfold bind in Hrun. destruct (f x s) as [[b|e0] s0] eqn:Hx.
    + apply IH in Hrun as (pre & y & post & s1 & -> & Hpre & Hy).
      exists (x :: pre), y, post, s1. split; [reflexivity |].
      split; [| exact Hy]. simpl. unfold bind. rewrite Hx. exact Hpre.
    + inversion Hrun; subst. exists [], x, l, s. repeat split. exact Hx.
Qed.

(** X3: bootstrap throws only what the processing of a declaration threw.
    When it throws, the declarations split into those processed without
    exception, which leave the state [after_declarations] computes, the
    one whose [createBinarySensor] or [createSwitch] threw that exception
    in that state, and those never reached; bootstrap ends in the state
    the failing call left. *)
Theorem throwing_bootstrap_has_first_failing_declaration
    (E : Env) (config : GpioConfig) (s s' : State) (e : Error) :
  onApplicationBootstrap E config s = (Throw e, s') →
  ∃ pre d post,
    declarations config = pre ++ d :: post ∧
    forEach (create E) pre s = (Normal tt, after_declarations E pre s) ∧
    create E d (after_declarations E pre s) = (Throw e, s').
Proof.
  intros Hrun. rewrite onApplicationBootstrap_declarations in Hrun.
  apply forEach_throws in Hrun as (pre & d & post & s1 & Hsplit & Hpre & Hd).
  pose proof (forEach_create_returns E _ _ _ Hpre) as Hs1. subst s1.
  exists pre, d, post. repeat split; assumption.
Qed.

Lemma claimed_pin_fails_on_the_lamp :
  onApplicationBootstrap claimed_pin_env front_door_and_lamp initial
    = (Throw EBUSY, claimed_failed) ∧
  ∃ pre d post,
    declarations front_door_and_lamp = pre ++ d :: post ∧
    forEach (create claimed_pin_env) pre initial
      = (Normal tt, after_declarations claimed_pin_env pre initial) ∧
    create claimed_pin_env d (after_declarations claimed_pin_env pre initial)
      = (Throw EBUSY, claimed_failed).
Proof.
  split; [reflexivity |].
  apply (throwing_bootstrap_has_first_failing_declaration
           claimed_pin_env front_door_and_lamp initial claimed_failed EBUSY).
  reflexivity.
Defined.

(** ** The history of a bootstrap *)

Lemma flat_map_concat_imap {A X} (g : Event → list X)
    (F : nat → A → list Event) (G : A → list X) (l : list A) :
  (∀ k d, flat_map g (F k d) = G d) →
  flat_map g (concat (imap F l)) = flat_map G l.
Proof.
  revert F. induction l as [|d l IH]; intros F HF; [reflexivity |].
  rewrite imap_cons. simpl. rewrite flat_map_app, HF. f_equal.
  apply IH. intros k d'. apply HF.
Qed.

Lemma flat_map_singleton {A B} (f : A → B) (l : list A) :
  flat_map (λ x, [f x]) l = map f l.
Proof. induction l as [|x l IH]; simpl; [reflexivity | now rewrite IH]. Qed.

Lemma flat_map_nil {A B} (l : list A) : flat_map (λ _ : A, @nil B) l = [].
Proof. induction l as [|x l IH]; simpl; [reflexivity | exact IH]. Qed.

Lemma flat_map_declarations {X} (G : Declaration → list X) (config : GpioConfig) :
  flat_map G (declarations config)
  = flat_map (λ b, G (inl b)) (binarySensors config)
    ++ flat_map (λ w, G (inr w)) (switches config).
Proof.
  unfold declarations. rewrite flat_map_app. f_equal.
  - induction (binarySensors config) as [|b l IH]; simpl; [reflexivity | now rewrite IH].
  - induction (switches config) as [|w l IH]; simpl; [reflexivity | now rewrite IH].
Qed.

(** X4: a bootstrap that returns has logged one line "Opening pin p as
    input" per binary sensor, in the order of the list, and none for a
    switch; it has called [new Gpio] once per declaration, on the pins of
    the sensors in their order and then on the pins of the switches in
    theirs. *)
Theorem returning_bootstrap_logs_and_opens_in_order
    (E : Env) (config : GpioConfig) (s s' : State) (evs : list Event) :
  onApplicationBootstrap E config s = (Normal tt, s') →
  trace s' = trace s ++ evs →
  logged evs
    = map (λ b, LogOpeningPinAsInput (bs_pin b)) (binarySensors config) ∧
  new_Gpio_calls evs
    = map bs_pin (binarySensors config) ++ map sw_pin (switches config).
Proof.
  intros Hrun Ht. rewrite onApplicationBootstrap_declarations in Hrun.
  apply forEach_create_returns in Hrun. subst s'.
  unfold after_declarations in Ht. cbn [trace] in Ht. apply app_inv_head in Ht.
  subst evs. split.
  - unfold logged.
    rewrite (flat_map_concat_imap log_line
               (λ k, decl_events E (length (entities s) + k) (length (heap s) + k))
               (λ d, match d with
                     | inl b => [LogOpeningPinAsInput (bs_pin b)]
                     | inr _ => []
                     end))
      by (intros k [b | w]; reflexivity).
    rewrite flat_map_declarations, flat_map_singleton, flat_map_nil.
    apply app_nil_r.
  - unfold new_Gpio_calls.
    rewrite (flat_map_concat_imap new_Gpio_call
               (λ k, decl_events E (length (entities s) + k) (length (heap s) + k))
               (λ d, match d with
                     | inl b => [bs_pin b]
                     | inr w => [sw_pin w]
                     end))
      by (intros k [b | w]; reflexivity).
    now rewrite flat_map_declarations, !flat_map_singleton.
Qed.

Lemma scenario_logs_and_opens_in_order :
  onApplicationBootstrap quiet_env front_door_and_lamp initial
    = (Normal tt, scenario_running) ∧
  logged (trace scenario_running) = [LogOpeningPinAsInput 4] ∧
  new_Gpio_calls (trace scenario_running) = [4%Z; 17%Z].
Proof.
  split; [reflexivity |].
  apply (returning_bootstrap_logs_and_opens_in_order
           quiet_env front_door_and_lamp initial scenario_running
           (trace scenario_running));
    reflexivity.
Defined.

(** ** Bootstrap only sets up *)

Section Setup.

Variable E : Env.

Lemma only_appends_refl s : only_appends s s.
Proof.
  exists [], [], []. rewrite !app_nil_r. repeat split. constructor.
Qed.

Lemma only_appends_trans s1 s2 s3 :
  only_appends s1 s2 → only_appends s2 s3 → only_appends s1 s3.
Proof.
  intros (es1 & hs1 & evs1 & He1 & Hh1 & Ht1 & Hf1)
         (es2 & hs2 & evs2 & He2 & Hh2 & Ht2 & Hf2).
  exists (es1 ++ es2), (hs1 ++ hs2), (evs1 ++ evs2).
  rewrite He2, He1, Hh2, Hh1, Ht2, Ht1, <- !app_assoc.
  repeat split. now apply Forall_app.
Qed.

Lemma create_only_appends d s c s' :
  create E d s = (c, s') → only_appends s s'.
Proof.
  destruct d as [b | w]; simpl; intros Hrun.
  - apply createBinarySensor_cases in Hrun.
    destruct Hrun as [(e & _ & ->) | [(e & _ & ->) | [(e & _ & ->) | [_ ->]]]];
      unfold only_appends; simpl; do 3 eexists;
      (split; [first [reflexivity | symmetry; apply app_nil_r] |]);
      (split; [first [reflexivity | symmetry; apply app_nil_r] |]);
      (split; [reflexivity |]); repeat constructor.
  - apply createSwitch_cases in Hrun.
    destruct Hrun as [(e & _ & ->) | [(e & _ & ->) | [_ ->]]];
      unfold only_appends; simpl; do 3 eexists;
      (split; [first [reflexivity | symmetry; apply app_nil_r] |]);
      (split; [first [reflexivity | symmetry; apply app_nil_r] |]);
      (split; [reflexivity |]); repeat constructor.
Qed.

Lemma forEach_create_only_appends l s c s' :
  forEach (create E) l s = (c, s') → only_appends s s'.
Proof.
  revert s. induction l as [|d l IH]; intros s Hrun; simpl in Hrun.
  - inversion Hrun; subst. apply only_appends_refl.
  - unfold bind in Hrun. destruct (create E d s) as [[r|e] s1] eqn:Hd.
    + eapply only_appends_trans; [eapply create_only_appends; eassumption |].
      now apply IH.
    + inversion Hrun; subst. eapply create_only_appends; eassumption.
Qed.

End Setup.

Lemma setup_events_project evs :
  Forall (λ ev, is_setup_event ev = true) evs →
  unexport_calls evs = [] ∧ writeSync_calls evs = [] ∧
  ∀ r, state_writes r evs = [].
Proof.
  induction 1 as [|ev evs Hev _ (Hu & Hw & Hs)]; [repeat split |].
  destruct ev; try discriminate Hev; simpl; repeat split; try assumption;
    intros r; apply Hs.
Qed.

(** X5: whatever its outcome, bootstrap only sets up.  Every entity
    registered before, with its state, and every driver object that
    existed before are as they were; bootstrap calls neither [unexport]
    nor [writeSync] and assigns no entity's state (a sensor's pin is not
    read at startup). *)
Theorem bootstrap_only_sets_up
    (E : Env) (config : GpioConfig) (s s' : State) (c : Completion unit)
    (evs : list Event) :
  onApplicationBootstrap E config s = (c, s') →
  trace s' = trace s ++ evs →
  (∀ r e, entities s !! r = Some e → entities s' !! r = Some e) ∧
  (∀ h g, heap s !! h = Some g → heap s' !! h = Some g) ∧
  unexport_calls evs = [] ∧
  writeSync_calls evs = [] ∧
  ∀ r, state_writes r evs = [].
Proof.
  intros Hrun Ht. rewrite onApplicationBootstrap_declarations in Hrun.
  apply forEach_create_only_appends in Hrun
    as (es & hs & evs0 & He & Hh & Ht0 & Hsetup).
  rewrite Ht in Ht0. apply app_inv_head in Ht0. subst evs0.
  split; [intros r e Hr; rewrite He; now apply lookup_app_l_Some |].
  split; [intros h g Hg; rewrite Hh; now apply lookup_app_l_Some |].
  now apply setup_events_project.
Qed.

Lemma claimed_pin_bootstrap_only_sets_up :
  onApplicationBootstrap claimed_pin_env front_door_and_lamp initial
    = (Throw EBUSY, claimed_failed) ∧
  unexport_calls (trace claimed_failed) = [] ∧
  writeSync_calls (trace claimed_failed) = [] ∧
  ∀ r, state_writes r (trace claimed_failed) = [].
Proof.
  split; [reflexivity |].
  destruct (bootstrap_only_sets_up
              claimed_pin_env front_door_and_lamp initial claimed_failed
              (Throw EBUSY) (trace claimed_failed) eq_refl eq_refl)
    as (_ & _ & Hrest).
  exact Hrest.
Defined.

(** ** Shutdown, again *)

(** X6: shutdown does not empty the list of handles, and does not touch
    the entities.  A second shutdown after one that returned walks the
    same list: when it returns too, [unexport] has been called twice on
    every handle, each time in the order of the list. *)
Theorem second_shutdown_unexports_again
    (E : Env) (s s1 s2 : State) (evs : list Event) :
  onApplicationShutdown E s = (Normal tt, s1) →
  onApplicationShutdown E s1 = (Normal tt, s2) →
  trace s2 = trace s ++ evs →
  gpios s2 = gpios s ∧
  entities s2 = entities s ∧
  unexport_calls evs = gpios s ++ gpios s.
Proof.
  intros H1 H2 Ht.
  apply onApplicationShutdown_run in H1 as (Hg1 & He1 & Ht1).
  apply onApplicationShutdown_run in H2 as (Hg2 & He2 & Ht2).
  rewrite Ht2, Ht1, Hg1, <- app_assoc in Ht. apply app_inv_head in Ht.
  subst evs. split; [congruence |]. split; [congruence |].
  rewrite unexport_calls_app. simpl.
  now rewrite !unexport_calls_released.
Qed.

Lemma scenario_second_shutdown :
  onApplicationShutdown quiet_env scenario_running = (Normal tt, scenario_stopped) ∧
  gpios (snd (onApplicationShutdown quiet_env scenario_stopped)) = [0; 1] ∧
  unexport_calls
    (drop (length (trace scenario_running))
          (trace (snd (onApplicationShutdown quiet_env scenario_stopped))))
    = [0; 1; 0; 1].
Proof.
  split; [reflexivity |].
  destruct (second_shutdown_unexports_again
              quiet_env scenario_running scenario_stopped
              (snd (onApplicationShutdown quiet_env scenario_stopped))
              (drop (length (trace scenario_running))
                    (trace (snd (onApplicationShutdown quiet_env scenario_stopped))))
              eq_refl eq_refl eq_refl)
    as (Hg & _ & Hcalls).
  split; [exact Hg | exact Hcalls].
Defined.

(** X7: shutdown throws only what an [unexport] threw.  When it throws,
    the list of handles is not empty, the last call of the history is the
    [unexport] of a listed handle that threw that exception, and list and
    entities are as before; with an empty list shutdown returns, whatever
    the driver would do. *)
Theorem shutdown_throws_only_from_unexport
    (E : Env) (s s' : State) (e : Error) :
  onApplicationShutdown E s = (Throw e, s') →
  gpios s ≠ [] ∧
  (∃ h, h ∈ gpios s ∧ last (trace s') = Some (EvUnexport h (Throw e))) ∧
  gpios s' = gpios s ∧
  entities s' = entities s.
Proof.
  intros Hrun.
  apply onApplicationShutdown_run in Hrun
    as (Hg & He & pre & h & post & Hsplit & Ht).
  split; [rewrite Hsplit; now destruct pre |].
  split; [| split; assumption].
  exists h. split.
  - rewrite Hsplit. apply elem_of_app. right. apply elem_of_cons. now left.
  - rewrite Ht.
    change (closing :: map released pre ++ [EvUnexport h (Throw e)])
      with ((closing :: map released pre) ++ [EvUnexport h (Throw e)]).
    rewrite app_assoc. apply last_snoc.
Qed.

Lemma busy_shutdown_throws_from_first_unexport :
  onApplicationShutdown unexport_fails_env busy_running = (Throw EBUSY, busy_stopped) ∧
  gpios busy_running ≠ [] ∧
  (∃ h, h ∈ gpios busy_running ∧
        last (trace busy_stopped) = Some (EvUnexport h (Throw EBUSY))) ∧
  gpios busy_stopped = gpios busy_running ∧
  entities busy_stopped = entities busy_running.
Proof.
  split; [reflexivity |].
  apply (shutdown_throws_only_from_unexport unexport_fails_env busy_running).
  reflexivity.
Defined.

(** ** Notifications on different pins *)

Lemma entities_set_state_ne r r' b s :
  r ≠ r' → entities (set_state r b s) !! r' = entities s !! r'.
Proof. intros Hne. unfold set_state. simpl. now apply list_lookup_alter_ne. Qed.

Lemma alter_alter_ne {A} (f g : A → A) (i j : nat) (l : list A) :
  i ≠ j → alter f i (alter g j l) = alter g j (alter f i l).
Proof.
  intros Hne. apply list_eq. intros k.
  rewrite !list_lookup_alter.
  repeat case_decide; subst; try congruence;
    rewrite ?list_lookup_alter_ne, ?list_lookup_alter_eq by congruence;
    reflexivity.
Qed.

(** X8: a notification on the pin of a sensor, successful or not, touches
    at most the state of that sensor's entity: every other entity, the
    driver objects and the list of handles are as before. *)
Theorem notification_touches_only_its_sensor
    (E : Env) (name : string) (pin : Z) (deviceClass : option string)
    (s s1 s2 : State) (r r' : ref) (err : option Error) (value : Z) :
  createBinarySensor E name pin deviceClass s = (Normal r, s1) →
  rtc (service_step E) s1 s2 →
  r' ≠ r →
  entities (notify (length (heap s)) err value s2) !! r' = entities s2 !! r' ∧
  heap (notify (length (heap s)) err value s2) = heap s2 ∧
  gpios (notify (length (heap s)) err value s2) = gpios s2.
Proof.
  intros Hrun Hsteps Hne.
  apply createBinarySensor_returns in Hrun as (_ & _ & Hw).
  apply service_steps_stable in Hsteps.
  pose proof (watched_stable _ _ _ _ Hsteps Hw) as Hw2.
  rewrite (notify_watched _ _ _ _ _ Hw2).
  destruct err as [e|]; simpl.
  - repeat split.
  - split; [apply entities_set_state_ne; congruence | split; reflexivity].
Qed.

Lemma window_edge_leaves_door_alone :
  createBinarySensor quiet_env "window" 5 (Some "window") door_watched
    = (Normal 1, two_sensors) ∧
  entities (notify 1 None 1%Z two_sensors) !! 0 = entities two_sensors !! 0 ∧
  heap (notify 1 None 1%Z two_sensors) = heap two_sensors ∧
  gpios (notify 1 None 1%Z two_sensors) = gpios two_sensors.
Proof.
  split; [reflexivity |].
  apply (notification_touches_only_its_sensor
           quiet_env "window" 5 (Some "window") door_watched two_sensors
           two_sensors 1 0 None 1%Z);
    [reflexivity | apply rtc_refl | discriminate].
Defined.

(** X9: two sensors set up one after the other have different entities
    and different driver objects, and successful notifications on their
    two pins commute on the entities: in either order of delivery each
    sensor ends with the value of the notification on its own pin. *)
Theorem notifications_on_two_sensors_commute
    (E : Env) (name1 name2 : string) (pin1 pin2 : Z)
    (deviceClass1 deviceClass2 : option string)
    (s s1 s1' s2 s3 : State) (r1 r2 : ref) (a b : Z) :
  createBinarySensor E name1 pin1 deviceClass1 s = (Normal r1, s1) →
  rtc (service_step E) s1 s1' →
  createBinarySensor E name2 pin2 deviceClass2 s1' = (Normal r2, s2) →
  rtc (service_step E) s2 s3 →
  let h1 := length (heap s) in
  let h2 := length (heap s1') in
  r1 ≠ r2 ∧ h1 ≠ h2 ∧
  entities (notify h1 None a (notify h2 None b s3))
    = entities (notify h2 None b (notify h1 None a s3)) ∧
  state_of (notify h1 None a (notify h2 None b s3)) r1 = Some (Boolean a) ∧
  state_of (notify h1 None a (notify h2 None b s3)) r2 = Some (Boolean b).
Proof.
  intros Hrun1 Hsteps1 Hrun2 Hsteps2 h1 h2.
  pose proof (stable_createBinarySensor E _ _ _ _ _ _ Hrun2) as Hst2.
  apply createBinarySensor_returns in Hrun1 as (_ & _ & Hw1).
  apply createBinarySensor_returns in Hrun2 as (Hr2 & _ & Hw2).
  apply service_steps_stable in Hsteps1, Hsteps2.
  pose proof (watched_stable _ _ _ _ Hsteps1 Hw1) as Hw1'.
  assert (r1 ≠ r2) as Hr.
  { destruct Hw1' as [_ Hsome]. apply lookup_lt_is_Some_1 in Hsome. lia. }
  assert (h1 ≠ h2) as Hh.
  { destruct Hw1' as [(g & Hg & _) _]. apply lookup_lt_Some in Hg.
    unfold h1, h2. lia. }
  assert (watched s3 h1 r1) as Hw13.
  { eapply watched_stable; [| exact Hw1'].
    eapply stable_trans; eassumption. }
  assert (watched s3 h2 r2) as Hw23.
  { eapply watched_stable; eassumption. }
  assert (notify h1 None a (notify h2 None b s3)
          = set_state r1 (Boolean a) (set_state r2 (Boolean b) s3)) as ->.
  { rewrite (notify_watched _ _ _ _ _ Hw23). simpl.
    rewrite (notify_watched _ h1 r1 None a); [reflexivity |].
    eapply watched_stable; [apply stable_set_state | exact Hw13]. }
  assert (notify h2 None b (notify h1 None a s3)
          = set_state r2 (Boolean b) (set_state r1 (Boolean a) s3)) as ->.
  { rewrite (notify_watched _ _ _ _ _ Hw13). simpl.
    rewrite (notify_watched _ h2 r2 None b); [reflexivity |].
    eapply watched_stable; [apply stable_set_state | exact Hw23]. }
  split; [exact Hr |]. split; [exact Hh |]. split; [| split].
  - unfold set_state. simpl. now apply alter_alter_ne.
  - apply state_of_set_state.
    destruct (watched_stable _ _ h1 r1 (stable_set_state r2 (Boolean b) s3) Hw13)
      as [_ Hsome].
    exact Hsome.
  - unfold state_of. rewrite entities_set_state_ne by exact Hr.
    apply (state_of_set_state s3 r2 (Boolean b)). apply Hw23.
Qed.

Lemma door_and_window_edges_commute :
  createBinarySensor quiet_env "front-door" 4 None initial = (Normal 0, door_watched) ∧
  createBinarySensor quiet_env "window" 5 (Some "window") door_watched
    = (Normal 1, two_sensors) ∧
  entities (notify 0 None 1%Z (notify 1 None 0%Z two_sensors))
    = entities (notify 1 None 0%Z (notify 0 None 1%Z two_sensors)) ∧
  state_of (notify 0 None 1%Z (notify 1 None 0%Z two_sensors)) 0 = Some true ∧
  state_of (notify 0 None 1%Z (notify 1 None 0%Z two_sensors)) 1 = Some false.
Proof.
  split; [reflexivity |]. split; [reflexivity |].
  destruct (notifications_on_two_sensors_commute
              quiet_env "front-door" "window" 4 5 None (Some "window")
              initial door_watched door_watched two_sensors two_sensors
              0 1 1%Z 0%Z eq_refl (rtc_refl _ _) eq_refl (rtc_refl _ _))
    as (_ & _ & Hcomm & H0 & H1).
  split; [exact Hcomm |]. split; [exact H0 | exact H1].
Defined.

(** X10: a switch's pin is never watched.  On the driver object that a
    returning [createSwitch] opened, whatever the service does before
    shutdown, a notification runs no callback and changes nothing. *)
Theorem notification_on_switch_pin_is_ignored
    (E : Env) (name : string) (pin : Z) (icon : option string)
    (s s1 s2 : State) (r : ref) (err : option Error) (value : Z) :
  createSwitch E name pin icon s = (Normal r, s1) →
  rtc (service_step E) s1 s2 →
  notify (length (heap s)) err value s2 = s2.
Proof.
  intros Hrun Hsteps.
  apply createSwitch_returns in Hrun as (_ & Hs1).
  apply service_steps_stable in Hsteps as [Hheap _].
  assert (heap s2 !! length (heap s) = Some (output_gpio pin)) as Hh.
  { apply Hheap. rewrite Hs1. simpl. apply list_lookup_middle. reflexivity. }
  unfold notify. rewrite Hh. reflexivity.
Qed.

Lemma lamp_ignores_notifications :
  createSwitch quiet_env "lamp" 17 None initial = (Normal 0, lamp_bound) ∧
  notify 0 None 1%Z lamp_on = lamp_on.
Proof.
  split; [reflexivity |].
  apply (notification_on_switch_pin_is_ignored
           quiet_env "lamp" 17 None initial lamp_bound lamp_on 0 None 1%Z);
    [reflexivity |].
  eapply rtc_l; [| apply rtc_refl].
  apply svc_running, (run_setState quiet_env 0 true (Normal tt)). reflexivity.
Defined.

(** ** Names and ids, again *)

Lemma add_calls_decl_events E l a b :
  add_calls (concat (imap (λ k, decl_events E (a + k) (b + k)) l))
  = imap (λ k, decl_entity E (b + k)) l.
Proof.
  revert a b. induction l as [|d l IH]; intros a b; [reflexivity |].
  rewrite !imap_cons. cbn [concat]. rewrite add_calls_app.
  assert (add_calls (decl_events E (a + 0) (b + 0) d) = [decl_entity E (b + 0) d])
    as -> by (destruct d; reflexivity).
  simpl. f_equal.
  rewrite (imap_ext _ (λ k, decl_events E (S a + k) (S b + k)))
    by (intros k x _; simpl; f_equal; lia).
  rewrite (imap_ext (_ ∘ S) (λ k, decl_entity E (S b + k)))
    by (intros k x _; simpl; f_equal; lia).
  apply IH.
Qed.

(** X11: the service does nothing to keep ids apart.  In a bootstrap that
    returns, a binary sensor and a switch declared under the same name
    are both handed to [entitiesService.add], as two different entities
    with the same id; only the entities service can refuse the second. *)
Theorem same_name_sensor_and_switch_share_an_id
    (E : Env) (config : GpioConfig) (s s' : State) (evs : list Event)
    (b : GpioBinarySensorOptions) (w : GpioSwitchOptions) :
  onApplicationBootstrap E config s = (Normal tt, s') →
  trace s' = trace s ++ evs →
  b ∈ binarySensors config →
  w ∈ switches config →
  bs_name b = sw_name w →
  ∃ h,
    BinarySensor (makeId E ("gpio " +:+ bs_name b)) (bs_name b) None
      ∈ add_calls evs ∧
    GpioSwitch (makeId E ("gpio " +:+ bs_name b)) (sw_name w) h None
      ∈ add_calls evs.
Proof.
  intros Hrun Ht Hb Hw Hname.
  rewrite onApplicationBootstrap_declarations in Hrun.
  apply forEach_create_returns in Hrun. subst s'.
  unfold after_declarations in Ht. cbn [trace] in Ht. apply app_inv_head in Ht.
  subst evs. rewrite add_calls_decl_events.
  assert (inl b ∈ declarations config) as Hdb.
  { apply list_elem_of_In, in_or_app. left. apply in_map, list_elem_of_In, Hb. }
  assert (inr w ∈ declarations config) as Hdw.
  { apply list_elem_of_In, in_or_app. right. apply in_map, list_elem_of_In, Hw. }
  apply list_elem_of_lookup_1 in Hdb as [i Hi].
  apply list_elem_of_lookup_1 in Hdw as [j Hj].
  exists (length (heap s) + j). split.
  - apply (elem_of_lookup_imap_2 (λ k, decl_entity E (length (heap s) + k)) _ _ _ Hi).
  - rewrite Hname.
    apply (elem_of_lookup_imap_2 (λ k, decl_entity E (length (heap s) + k)) _ _ _ Hj).
Qed.

Lemma porch_is_registered_twice_under_one_id :
  onApplicationBootstrap quiet_env porch_twice initial = (Normal tt, porch_running) ∧
  ∃ h,
    BinarySensor "gpio porch" "porch" None ∈ add_calls (trace porch_running) ∧
    GpioSwitch "gpio porch" "porch" h None ∈ add_calls (trace porch_running).
Proof.
  split; [reflexivity |].
  apply (same_name_sensor_and_switch_share_an_id
           quiet_env porch_twice initial porch_running (trace porch_running)
           (mkSensorOptions "porch" 4 None) (mkSwitchOptions "porch" 17 None));
    try reflexivity.
  - apply elem_of_cons. now left.
  - apply elem_of_cons. now left.
Defined.

(** ** A sensor whose [watch] throws *)



(** ** Runs of notifications with read errors among them *)

Lemma callback_events_project r ns :
  state_writes r (map (callback_event r) ns) = map Boolean (levels_read ns) ∧
  logged (map (callback_event r) ns)
    = map (λ e, LogError (message e) (stack e)) (read_errors ns).
Proof.
  induction ns as [|[[e|] v] ns [IHw IHl]]; simpl; [split; reflexivity | |].
  - split; [exact IHw | now rewrite IHl].
  - rewrite Nat.eqb_refl. simpl. split; [now rewrite IHw | exact IHl].
Qed.

(** X13: on the pin of a sensor, whatever the service did since it was set
    up, any run of notifications, with read errors anywhere among them,
    writes to the sensor's state the values [level != 0] of the successful
    ones, in their order, and logs the message and stack of each error, in
    their order; driver objects and list of handles are unchanged, so the
    callback is still attached after the run. *)
Theorem notifications_with_errors_write_the_successes
    (E : Env) (name : string) (pin : Z) (deviceClass : option string)
    (s s1 s2 : State) (r : ref) (ns : list (option Error * Z))
    (evs : list Event) :
  createBinarySensor E name pin deviceClass s = (Normal r, s1) →
  rtc (service_step E) s1 s2 →
  trace (notify_all (length (heap s)) ns s2) = trace s2 ++ evs →
  state_writes r evs = map (λ v, negb (v =? 0)%Z) (levels_read ns) ∧
  logged evs = map (λ e, LogError (message e) (stack e)) (read_errors ns) ∧
  length evs = length ns ∧
  heap (notify_all (length (heap s)) ns s2) = heap s2 ∧
  gpios (notify_all (length (heap s)) ns s2) = gpios s2 ∧
  watched (notify_all (length (heap s)) ns s2) (length (heap s)) r.
Proof.
  intros Hrun Hsteps Ht.
  apply createBinarySensor_returns in Hrun as (_ & _ & Hw).
  apply service_steps_stable in Hsteps.
  pose proof (watched_stable _ _ _ _ Hsteps Hw) as Hw2.
  destruct (notify_all_watched s2 (length (heap s)) r ns Hw2)
    as (Ht' & Hh & Hg & Hw3).
  rewrite Ht' in Ht. apply app_inv_head in Ht. subst evs.
  destruct (callback_events_project r ns) as [Hwrites Hlogged].
  split; [exact Hwrites |]. split; [exact Hlogged |].
  split; [apply length_map |]. split; [exact Hh |]. split; [exact Hg | exact Hw3].
Qed.

Lemma door_with_read_errors_follows_the_successes :
  createBinarySensor quiet_env "front-door" 4 None initial = (Normal 0, door_watched) ∧
  state_writes 0 (drop (length (trace door_watched)) (trace door_with_read_errors))
    = [true; false] ∧
  logged (drop (length (trace door_watched)) (trace door_with_read_errors))
    = [LogError "EIO: i/o error, read" "at Gpio.read";
       LogError "EIO: i/o error, read" "at Gpio.read"].
Proof.
  split; [reflexivity |].
  destruct (notifications_with_errors_write_the_successes
              quiet_env "front-door" 4 None initial door_watched door_watched 0
              [(None, 1%Z); (Some EIO, 0%Z); (Some EIO, 1%Z); (None, 0%Z)]
              (drop (length (trace door_watched)) (trace door_with_read_errors))
              eq_refl (rtc_refl _ _) eq_refl)
    as (Hwrites & Hlogged & _).
  split; [exact Hwrites | exact Hlogged].
Defined.
